(** * Stock tracker: indicator engine and forecast engine

    A shallow embedding of [src/lib/prediction.ts] and
    [src/lib/technical-indicators.ts].  JavaScript numbers are IEEE 754
    binary64 values, so they are modelled by Rocq's primitive floats, whose
    operations are the same correctly rounded binary64 operations and which
    have a single NaN.  Arrays are lists; an array that a callee mutates is
    threaded through explicitly, so that the caller sees the pushes. *)

From Stdlib Require Import String.
From Stdlib Require Import Floats List ZArith Bool Lia Uint63.
From Stdlib Require Import Permutation.
Import ListNotations.

Set Warnings "-inexact-float".
Local Open Scope float_scope.

(* ================================================================= *)
(** ** JavaScript numbers and arrays *)

Module JS.

(** A JavaScript number. *)
Abbreviation num := float (only parsing).

(** An array length or loop counter used as a number.  Array lengths are
    below 2^32, so the conversion is exact. *)
Definition of_nat (n : nat) : num := PrimFloat.of_uint63 (Uint63.of_Z (Z.of_nat n)).

(** [a[i]] read in a numeric context: a missing element is [undefined],
    which arithmetic and comparisons coerce to NaN. *)
Definition get (a : list num) (i : nat) : num := nth i a nan.

(** Truthiness of a number: [0], [-0] and NaN are falsy. *)
Definition falsy (x : num) : bool := PrimFloat.eqb x 0 || PrimFloat.is_nan x.

(** [x || d] on numbers. *)
Definition or_else (x d : num) : num := if falsy x then d else x.

(** [x > y] and [x < y]; both are false when an operand is NaN. *)
Definition gt (x y : num) : bool := PrimFloat.ltb y x.
Definition lt (x y : num) : bool := PrimFloat.ltb x y.

(** [Math.min] and [Math.max] of two numbers: NaN if either is NaN, and
    [-0] counts as smaller than [+0]. *)
Definition min (x y : num) : num :=
  if PrimFloat.is_nan x || PrimFloat.is_nan y then nan
  else if PrimFloat.leb x y then
    if PrimFloat.eqb x y then (if PrimFloat.get_sign x then x else y) else x
  else y.

Definition max (x y : num) : num :=
  if PrimFloat.is_nan x || PrimFloat.is_nan y then nan
  else if PrimFloat.leb y x then
    if PrimFloat.eqb x y then (if PrimFloat.get_sign x then y else x) else x
  else y.

(** [Math.pow(x, 2)]. *)
Definition sq (x : num) : num := x * x.

(** Relative index of [Array.prototype.slice]: a negative index counts
    from the end; the result is clamped to [0, len]. *)
Definition rel_index (len : nat) (k : Z) : nat :=
  if (k <? 0)%Z then Z.to_nat (Z.max (Z.of_nat len + k) 0)
  else Nat.min (Z.to_nat k) len.

(** [a.slice(start, stop)]. *)
Definition slice {A} (a : list A) (start stop : Z) : list A :=
  let k := rel_index (length a) start in
  let f := rel_index (length a) stop in
  firstn (f - k) (skipn k a).

(** [a.slice(start)]. *)
Definition slice_from {A} (a : list A) (start : Z) : list A :=
  skipn (rel_index (length a) start) a.

(** [a.reduce((s, v) => s + v, 0)]. *)
Definition sum (a : list num) : num := fold_left PrimFloat.add a 0.

(** [a.sort(cmp)]: elements are inserted one by one from the left, each
    before the first element it compares below.  A NaN returned by the
    comparator counts as [+0], as ECMAScript's SortCompare prescribes.

    Where this is the program's sort and where it is not.  On an array
    without NaN the comparator [a - b] is consistent, the sorted and stable
    order is unique, and every conforming sort returns the list computed
    here.  With NaN in the array the comparator is inconsistent and
    ECMAScript leaves the order to the implementation.  When the NaNs are
    all at the end (the array [predictStockPrices] sorts, when the closes
    are numbers) insertion and merge sorts still return this list, since a
    NaN compares equal to everything and nothing is moved across it.  When
    a NaN stands before a number an engine may return another arrangement
    than this one: on [3; NaN; 1; 2] this definition gives [1; 2; 3; NaN],
    while a sort that first looks for an ascending run finds the whole
    array to be one and leaves it as it is.  Of the result on such inputs
    this development states only what holds of every rearrangement. *)
Fixpoint insert_by (cmp : num -> num -> num) (x : num) (l : list num) : list num :=
  match l with
  | [] => [x]
  | y :: t => if PrimFloat.ltb (cmp x y) 0 then x :: y :: t
              else y :: insert_by cmp x t
  end.

Definition sort (cmp : num -> num -> num) (a : list num) : list num :=
  fold_left (fun acc x => insert_by cmp x acc) a [].

End JS.

(** Outcome of a call that may throw. *)
Inductive outcome (A : Type) : Type :=
| Returns (a : A)
| Throws (message : string).
Arguments Returns {A} a.
Arguments Throws {A} message.

(** [StockTimeSeriesData] of [src/lib/api.ts]. *)
Record StockTimeSeriesData : Type := mkBar {
  date : string;
  open : JS.num;
  high : JS.num;
  low : JS.num;
  close : JS.num;
  volume : JS.num
}.

(* ================================================================= *)
(** ** The forecast engine, [src/lib/prediction.ts] *)

Module Prediction.

Inductive Trend : Type := bullish | bearish | neutral.

(** [PredictionResult].  An entry of [predicted] is [None] where the array
    holds [null]. *)
Record PredictionResult : Type := mkResult {
  dates : list string;
  actual : list JS.num;
  predicted : list (option JS.num);
  nextDayPrediction : JS.num;
  nextWeekPrediction : JS.num;
  confidence : JS.num;
  trend : Trend;
  supportLevel : JS.num;
  resistanceLevel : JS.num
}.

(** The private [calculateSMA] helper: one entry per iteration of
    [for (let i = window - 1; i < data.length; i++)], no padding. *)
Definition calculateSMA (data : list JS.num) (window : nat) : list JS.num :=
  let first := (Z.of_nat window - 1)%Z in
  map (fun k =>
         let i := (first + Z.of_nat k)%Z in
         let windowSlice := JS.slice data (i - Z.of_nat window + 1) (i + 1) in
         JS.sum windowSlice / JS.of_nat window)
      (seq 0 (Z.to_nat (Z.of_nat (length data) - first))).

Record sums : Type := mkSums { sumX : JS.num; sumY : JS.num; sumXY : JS.num; sumXX : JS.num }.

Definition lr_step (xValues yValues : list JS.num) (s : sums) (i : nat) : sums :=
  {| sumX := sumX s + JS.get xValues i;
     sumY := sumY s + JS.get yValues i;
     sumXY := sumXY s + JS.get xValues i * JS.get yValues i;
     sumXX := sumXX s + JS.get xValues i * JS.get xValues i |}.

Definition linearRegression (xValues yValues : list JS.num) (predict : JS.num) : JS.num :=
  let n := length xValues in
  let s := fold_left (lr_step xValues yValues) (seq 0 n) (mkSums 0 0 0 0) in
  let slope := (JS.of_nat n * sumXY s - sumX s * sumY s)
               / (JS.of_nat n * sumXX s - sumX s * sumX s) in
  let intercept := (sumY s - slope * sumX s) / JS.of_nat n in
  slope * predict + intercept.

(** [Array.from({ length: w }, (_, j) => j + 1)]. *)
Definition positions (w : nat) : list JS.num := map JS.of_nat (seq 1 w).

(** The differenced series built at the start of [arimaInspiredPrediction]. *)
Definition differences (data : list JS.num) : list JS.num :=
  map (fun i => JS.get data i - JS.get data (i - 1)) (seq 1 (length data - 1)).

(** Variables of the forecasting loop.  [data] is the caller's array: the
    loop pushes onto it. *)
Record arima_state : Type := mkArima {
  differenced : list JS.num;
  data : list JS.num;
  predictions : list JS.num
}.

Definition ar_window : nat := 5.

(** One iteration of the loop [for (let i = 0; i < daysToPredict; i++)]. *)
Definition arima_step (st : arima_state) (i : nat) : arima_state :=
  let xValues := positions ar_window in
  let startIdx := (Z.of_nat (length (differenced st)) - Z.of_nat ar_window)%Z in
  let yValues := JS.slice_from (differenced st) startIdx in
  let nextDiff := linearRegression xValues yValues (JS.of_nat (ar_window + 1)) in
  let nextVal := JS.get (data st) (length (data st) - 1 + i) + nextDiff in
  {| differenced := differenced st ++ [nextDiff];
     data := data st ++ [nextVal];
     predictions := predictions st ++ [nextVal] |}.

Definition arima_run (data0 : list JS.num) (daysToPredict : nat) : arima_state :=
  fold_left arima_step (seq 0 daysToPredict)
            {| differenced := differences data0; data := data0; predictions := [] |}.

(** [arimaInspiredPrediction(data, daysToPredict)]: the returned
    predictions, and the argument array as the call leaves it. *)
Definition arimaInspiredPrediction (data0 : list JS.num) (daysToPredict : nat)
  : list JS.num * list JS.num :=
  let st := arima_run data0 daysToPredict in (predictions st, data st).

Definition findSupportResistance (data : list JS.num) : JS.num * JS.num :=
  let sorted := JS.sort (fun a b => a - b) data in
  (* Math.floor(sorted.length * 0.25) and Math.floor(sorted.length * 0.75):
     both products are exact in binary64 *)
  let q1Index := (length sorted / 4)%nat in
  let q3Index := (length sorted * 3 / 4)%nat in
  (JS.get sorted q1Index, JS.get sorted q3Index).

Definition determineTrend (data : list JS.num) : Trend :=
  let recentDays := 10%Z in
  let recent := JS.slice_from data (- recentDays) in
  let startPrice := JS.get recent 0 in
  let endPrice := JS.get recent (length recent - 1) in
  let percentChange := (endPrice - startPrice) / startPrice * 100 in
  if JS.gt percentChange 3 then bullish
  else if JS.lt percentChange (-3) then bearish
  else neutral.

(** The reducer of [calculateConfidence], with its index. *)
Fixpoint squared_errors (actual predicted : list JS.num) (i : nat) (sum : JS.num) : JS.num :=
  match predicted with
  | [] => sum
  | pred :: rest =>
      let error := pred - JS.get actual i in
      squared_errors actual rest (S i) (sum + error * error)
  end.

Definition calculateConfidence (actual predicted : list JS.num) : JS.num :=
  if (length predicted =? 0)%nat || (length actual <? 10)%nat then 0.5
  else
    let mse := squared_errors actual predicted 0 0 / JS.of_nat (length predicted) in
    let maxMSE := JS.sq (JS.get actual (length actual - 1) * 0.2) in
    JS.max 0 (JS.min 1 (1 - mse / maxMSE)).

Definition trainingWindow : nat := 20.

(** The back-fit loop: one regression per index from [trainingWindow]. *)
Definition backfit (closePrices : list JS.num) : list JS.num :=
  map (fun i =>
         let trainingData :=
           JS.slice closePrices (Z.of_nat i - Z.of_nat trainingWindow) (Z.of_nat i) in
         linearRegression (positions trainingWindow) trainingData
                          (JS.of_nat (trainingWindow + 1)))
      (seq trainingWindow (length closePrices - trainingWindow)).

(** [predictedValues.filter(p => p !== null)]. *)
Definition non_null (l : list (option JS.num)) : list JS.num :=
  flat_map (fun p => match p with Some v => [v] | None => [] end) l.

Definition insufficient : string :=
  "Insufficient data for prediction. Need at least 30 data points.".

(** [predictStockPrices].  The argument is an array, so [!stockData] is
    false and the guard is the length test.  The array [closePrices] is
    passed to both
    forecasting runs and then to the later stages; [closePrices1] and
    [closePrices2] are its contents after the first and the second run.
    The indicator arrays the function also computes (sma20, ema12, ema26,
    rsi, macd) are built without touching [closePrices] and are never
    read. *)
Definition predictStockPrices (stockData : list StockTimeSeriesData)
  : outcome PredictionResult :=
  if (length stockData <? 30)%nat then Throws insufficient
  else
    let closePrices := map close stockData in
    let dates := map date stockData in
    let predictedValues :=
      repeat None trainingWindow ++ map Some (backfit closePrices) in
    let '(run1, closePrices1) := arimaInspiredPrediction closePrices 1 in
    let nextDayPrediction := JS.get run1 0 in
    let '(run7, closePrices2) := arimaInspiredPrediction closePrices1 7 in
    let nextWeekPrediction := JS.get run7 6 in
    let '(support, resistance) := findSupportResistance closePrices2 in
    let trend := determineTrend closePrices2 in
    let nonNullPredicted := non_null predictedValues in
    let actual := JS.slice_from closePrices2 (- Z.of_nat (length nonNullPredicted)) in
    let confidence := calculateConfidence actual nonNullPredicted in
    Returns {| dates := dates;
               actual := closePrices2;
               predicted := predictedValues;
               nextDayPrediction := nextDayPrediction;
               nextWeekPrediction := nextWeekPrediction;
               confidence := confidence;
               trend := trend;
               supportLevel := support;
               resistanceLevel := resistance |}.

(** The array the seven-step run receives. *)
Definition week_run_input (stockData : list StockTimeSeriesData) : list JS.num :=
  snd (arimaInspiredPrediction (map close stockData) 1).

(** A well-formed forecast record for the bars it was computed from.  This
    predicate is written from the data model of the specification, not from
    the code: [dates] holds the bars' dates, [actual] echoes the bars'
    closes, [predicted] is aligned with [dates], undefined on the training
    window and a number after it, and [confidence] lies in [0, 1]. *)
Definition well_formed (stockData : list StockTimeSeriesData) (r : PredictionResult) : Prop :=
  dates r = map date stockData
  /\ actual r = map close stockData
  /\ length (predicted r) = length (dates r)
  /\ firstn trainingWindow (predicted r) = repeat None trainingWindow
  /\ Forall (fun p => p <> None) (skipn trainingWindow (predicted r))
  /\ PrimFloat.leb 0 (confidence r) = true
  /\ PrimFloat.leb (confidence r) 1 = true.

(** The first value a run predicts from [data0]. *)
Definition first_forecast (data0 : list JS.num) : JS.num :=
  JS.get (predictions (arima_step (mkArima (differences data0) data0 []) 0)) 0.

(** The close series after a one-step run followed by a seven-step run on
    the same array. *)
Definition closes_after_runs (stockData : list StockTimeSeriesData) : list JS.num :=
  let c := map close stockData in
  let d := first_forecast c in
  c ++ d :: first_forecast (c ++ [d]) :: repeat nan 6.

End Prediction.

(* ================================================================= *)
(** ** The indicator engine, [src/lib/technical-indicators.ts] *)

Module Indicators.

(** The inner loop of [calculateSMA]: [sum += data[i - j]] for
    [j = 0 .. period - 1]. *)
Definition window_sum (data : list JS.num) (i period : nat) : JS.num :=
  fold_left (fun sum j => sum + JS.get data (i - j)) (seq 0 period) 0.

Definition calculateSMA (data : list JS.num) (period : nat) : list JS.num :=
  map (fun i =>
         if (i <? period - 1)%nat then nan
         else window_sum data i period / JS.of_nat period)
      (seq 0 (length data)).

(** The price-change loop of [calculateRSI]. *)
Definition changes (data : list JS.num) : list JS.num :=
  map (fun i => JS.get data i - JS.get data (i - 1)) (seq 1 (length data - 1)).

Definition gains (data : list JS.num) : list JS.num :=
  map (fun change => if JS.gt change 0 then change else 0) (changes data).

Definition losses (data : list JS.num) : list JS.num :=
  map (fun change => if JS.lt change 0 then PrimFloat.abs change else 0) (changes data).

Definition rsi_epsilon : JS.num := 0.001.

(** The number pushed for a pair of averages:
    [100 - (100 / (1 + avgGain / (avgLoss || 0.001)))]. *)
Definition rsi_value (avgGain avgLoss : JS.num) : JS.num :=
  100 - (100 / (1 + avgGain / JS.or_else avgLoss rsi_epsilon)).

(** Wilder smoothing of one average:
    [((avg * (period - 1)) + x) / period]. *)
Definition wilder (period : nat) (avg x : JS.num) : JS.num :=
  ((avg * (JS.of_nat period - 1)) + x) / JS.of_nat period.

(** The pairs [(avgGain, avgLoss)] the function divides: the seed pair,
    then one pair per iteration [i = period + 1 .. data.length - 1]. *)
Fixpoint rsi_loop (period : nat) (g l : list JS.num) (idxs : list nat)
         (avgGain avgLoss : JS.num) : list (JS.num * JS.num) :=
  match idxs with
  | [] => []
  | i :: rest =>
      let avgGain' := wilder period avgGain (JS.get g (i - 1)) in
      let avgLoss' := wilder period avgLoss (JS.get l (i - 1)) in
      (avgGain', avgLoss') :: rsi_loop period g l rest avgGain' avgLoss'
  end.

Definition rsi_averages (data : list JS.num) (period : nat) : list (JS.num * JS.num) :=
  let g := gains data in
  let l := losses data in
  let avgGain := JS.sum (JS.slice g 0 (Z.of_nat period)) / JS.of_nat period in
  let avgLoss := JS.sum (JS.slice l 0 (Z.of_nat period)) / JS.of_nat period in
  (avgGain, avgLoss)
    :: rsi_loop period g l (seq (period + 1) (length data - (period + 1))) avgGain avgLoss.

(** The denominators of the divisions [avgGain / (avgLoss || 0.001)]. *)
Definition rsi_denominators (data : list JS.num) (period : nat) : list JS.num :=
  map (fun p => JS.or_else (snd p) rsi_epsilon) (rsi_averages data period).

Definition calculateRSI (data : list JS.num) (period : nat) : list JS.num :=
  repeat nan period
    ++ map (fun p => rsi_value (fst p) (snd p)) (rsi_averages data period).

(** [calculateSmoothedAverage]: the loop extends [result] from its last
    element. *)
Fixpoint smooth_loop (period : nat) (data : list JS.num) (idxs : list nat) (last : JS.num)
  : list JS.num :=
  match idxs with
  | [] => []
  | i :: rest =>
      let v := ((last * (JS.of_nat period - 1)) + JS.get data i) / JS.of_nat period in
      v :: smooth_loop period data rest v
  end.

Definition calculateSmoothedAverage (data : list JS.num) (period : nat) : list JS.num :=
  let firstValue := JS.sum (JS.slice data 0 (Z.of_nat period)) / JS.of_nat period in
  firstValue :: smooth_loop period data (seq period (length data - period)) firstValue.

(** True range and directional movement of bar [i], as the first loop of
    [calculateADX] pushes them. *)
Definition true_range (highs lows closes : list JS.num) (i : nat) : JS.num :=
  let tr1 := JS.get highs i - JS.get lows i in
  let tr2 := PrimFloat.abs (JS.get highs i - JS.get closes (i - 1)) in
  let tr3 := PrimFloat.abs (JS.get lows i - JS.get closes (i - 1)) in
  JS.max (JS.max tr1 tr2) tr3.

Definition plus_dm (highs lows : list JS.num) (i : nat) : JS.num :=
  let upMove := JS.get highs i - JS.get highs (i - 1) in
  let downMove := JS.get lows (i - 1) - JS.get lows i in
  if JS.gt upMove downMove && JS.gt upMove 0 then upMove else 0.

Definition minus_dm (highs lows : list JS.num) (i : nat) : JS.num :=
  let upMove := JS.get highs i - JS.get highs (i - 1) in
  let downMove := JS.get lows (i - 1) - JS.get lows i in
  if JS.gt downMove upMove && JS.gt downMove 0 then downMove else 0.

Definition bars_from_1 (closes : list JS.num) : list nat := seq 1 (length closes - 1).

Definition smoothedTR (highs lows closes : list JS.num) (period : nat) : list JS.num :=
  calculateSmoothedAverage (map (true_range highs lows closes) (bars_from_1 closes)) period.

Definition smoothedPlusDM (highs lows closes : list JS.num) (period : nat) : list JS.num :=
  calculateSmoothedAverage (map (plus_dm highs lows) (bars_from_1 closes)) period.

Definition smoothedMinusDM (highs lows closes : list JS.num) (period : nat) : list JS.num :=
  calculateSmoothedAverage (map (minus_dm highs lows) (bars_from_1 closes)) period.

(** [(smoothedPlusDM[i] / smoothedTR[i]) * 100] for every index of
    [smoothedTR], and the same for the minus side. *)
Definition plusDI (highs lows closes : list JS.num) (period : nat) : list JS.num :=
  let sTR := smoothedTR highs lows closes period in
  let sP := smoothedPlusDM highs lows closes period in
  map (fun i => (JS.get sP i / JS.get sTR i) * 100) (seq 0 (length sTR)).

Definition minusDI (highs lows closes : list JS.num) (period : nat) : list JS.num :=
  let sTR := smoothedTR highs lows closes period in
  let sM := smoothedMinusDM highs lows closes period in
  map (fun i => (JS.get sM i / JS.get sTR i) * 100) (seq 0 (length sTR)).

(** The denominators [plusDI[i] + minusDI[i]] of the DX loop. *)
Definition dx_denominators (highs lows closes : list JS.num) (period : nat) : list JS.num :=
  let p := plusDI highs lows closes period in
  let m := minusDI highs lows closes period in
  map (fun i => JS.get p i + JS.get m i) (seq 0 (length p)).

Definition dx (highs lows closes : list JS.num) (period : nat) : list JS.num :=
  let p := plusDI highs lows closes period in
  let m := minusDI highs lows closes period in
  map (fun i => (PrimFloat.abs (JS.get p i - JS.get m i) / (JS.get p i + JS.get m i)) * 100)
      (seq 0 (length p)).

(** The final loop of [calculateADX]. *)
Fixpoint adx_loop (period : nat) (d : list JS.num) (idxs : list nat) (adx : JS.num)
  : list JS.num :=
  match idxs with
  | [] => []
  | i :: rest =>
      let adx' := ((adx * (JS.of_nat period - 1)) + JS.get d i) / JS.of_nat period in
      adx' :: adx_loop period d rest adx'
  end.

Definition calculateADX (highs lows closes : list JS.num) (period : nat) : list JS.num :=
  let d := dx highs lows closes period in
  let adx := JS.sum (JS.slice d 0 (Z.of_nat period)) / JS.of_nat period in
  repeat nan (period * 2 - 1)
    ++ adx :: adx_loop period d (seq period (length d - period)) adx.

(** The loop variables of [calculateParabolicSAR]. *)
Record sar_state : Type := mkSar {
  isUptrend : bool;
  ep : JS.num;
  sar : JS.num;
  af : JS.num
}.

Definition sar_init (highs lows closes : list JS.num) (initialAF : JS.num) : sar_state :=
  let up := JS.gt (JS.get closes 1) (JS.get closes 0) in
  {| isUptrend := up;
     ep := if up then JS.get highs 0 else JS.get lows 0;
     sar := if up then JS.get lows 0 else JS.get highs 0;
     af := initialAF |}.

(** The SAR of bar [i] as pushed to the result: moved towards the extreme
    point, then kept outside the previous one or two bars. *)
Definition sar_advance (highs lows : list JS.num) (i : nat) (st : sar_state) : JS.num :=
  let s := sar st + af st * (ep st - sar st) in
  if isUptrend st then
    let s := JS.min s (JS.get lows (i - 1)) in
    if (2 <=? i)%nat then JS.min s (JS.get lows (i - 2)) else s
  else
    let s := JS.max s (JS.get highs (i - 1)) in
    if (2 <=? i)%nat then JS.max s (JS.get highs (i - 2)) else s.

(** The reversal test made on bar [i] against the SAR just pushed. *)
Definition reverses (highs lows : list JS.num) (i : nat) (st : sar_state) : bool :=
  let s := sar_advance highs lows i st in
  (isUptrend st && JS.lt (JS.get lows i) s)
  || (negb (isUptrend st) && JS.gt (JS.get highs i) s).

(** The body of the loop for bar [i]: the state it leaves. *)
Definition sar_step (highs lows : list JS.num) (initialAF maxAF : JS.num)
           (st : sar_state) (i : nat) : sar_state :=
  let s := sar_advance highs lows i st in
  if reverses highs lows i st then
    let up := negb (isUptrend st) in
    {| isUptrend := up;
       sar := if up then JS.get lows i else JS.get highs i;
       ep := if up then JS.get highs i else JS.get lows i;
       af := initialAF |}
  else if isUptrend st && JS.gt (JS.get highs i) (ep st) then
    {| isUptrend := isUptrend st;
       sar := s;
       ep := JS.get highs i;
       af := JS.min (af st + initialAF) maxAF |}
  else if negb (isUptrend st) && JS.lt (JS.get lows i) (ep st) then
    {| isUptrend := isUptrend st;
       sar := s;
       ep := JS.get lows i;
       af := JS.min (af st + initialAF) maxAF |}
  else
    {| isUptrend := isUptrend st; sar := s; ep := ep st; af := af st |}.

(** The loop [for (let i = 1; i < closes.length; i++)]: for every bar the
    SAR pushed to [result] and the state the iteration leaves. *)
Fixpoint sar_scan (highs lows : list JS.num) (initialAF maxAF : JS.num)
         (idxs : list nat) (st : sar_state) : list (JS.num * sar_state) :=
  match idxs with
  | [] => []
  | i :: rest =>
      let st' := sar_step highs lows initialAF maxAF st i in
      (sar_advance highs lows i st, st')
        :: sar_scan highs lows initialAF maxAF rest st'
  end.

Definition sar_run (highs lows closes : list JS.num) (initialAF maxAF : JS.num)
  : list (JS.num * sar_state) :=
  sar_scan highs lows initialAF maxAF (seq 1 (length closes - 1))
           (sar_init highs lows closes initialAF).

Definition calculateParabolicSAR (highs lows closes : list JS.num)
           (initialAF maxAF : JS.num) : list JS.num :=
  nan :: map fst (sar_run highs lows closes initialAF maxAF).

(** The states the scan goes through: before the loop and after each of
    its iterations. *)
Definition sar_states (highs lows closes : list JS.num) (initialAF maxAF : JS.num)
  : list sar_state :=
  sar_init highs lows closes initialAF
    :: map snd (sar_run highs lows closes initialAF maxAF).

(** The acceleration factor of a state lies between the initial one and
    the maximum. *)
Definition af_in_range (initialAF maxAF : JS.num) (st : sar_state) : Prop :=
  PrimFloat.leb initialAF (af st) = true /\ PrimFloat.leb (af st) maxAF = true.

Definition defaultInitialAF : JS.num := 0.02.
Definition defaultMaxAF : JS.num := 0.2.

(** [calculateEMA].  The loop carries [ema], seeded with the mean of the
    first [period] values; the index tests are made on integers, as
    [period - 1] is negative for a zero period. *)
Fixpoint ema_loop (period : nat) (multiplier : JS.num) (data : list JS.num)
         (idxs : list nat) (ema : JS.num) : list JS.num :=
  match idxs with
  | [] => []
  | i :: rest =>
      if (Z.of_nat i <? Z.of_nat period - 1)%Z then
        nan :: ema_loop period multiplier data rest ema
      else if (Z.of_nat i =? Z.of_nat period - 1)%Z then
        ema :: ema_loop period multiplier data rest ema
      else
        let ema' := JS.get data i * multiplier + ema * (1 - multiplier) in
        ema' :: ema_loop period multiplier data rest ema'
  end.

Definition ema_multiplier (period : nat) : JS.num := 2 / (JS.of_nat period + 1).

Definition ema_seed (data : list JS.num) (period : nat) : JS.num :=
  JS.sum (JS.slice data 0 (Z.of_nat period)) / JS.of_nat period.

Definition calculateEMA (data : list JS.num) (period : nat) : list JS.num :=
  ema_loop period (ema_multiplier period) data (seq 0 (length data)) (ema_seed data period).

(** [a.findIndex(p)], counting from [i]: [-1] when no element satisfies [p]. *)
Fixpoint find_index (p : JS.num -> bool) (a : list JS.num) (i : Z) : Z :=
  match a with
  | [] => (-1)%Z
  | x :: t => if p x then i else find_index p t (i + 1)%Z
  end.

(** [a[idx] = v].  A negative index sets a property and leaves the elements
    alone; an index past the end extends the array, the holes reading as
    [undefined], NaN in a numeric context. *)
Definition set_at (a : list JS.num) (idx : Z) (v : JS.num) : list JS.num :=
  if (idx <? 0)%Z then a
  else
    let k := Z.to_nat idx in
    if (k <? length a)%nat then firstn k a ++ v :: skipn (S k) a
    else a ++ repeat nan (k - length a) ++ [v].

Record MACD : Type := mkMACD {
  line : list JS.num;
  signal : list JS.num;
  histogram : list JS.num
}.

(** [!isNaN(value)]. *)
Definition not_nan (value : JS.num) : bool := negb (PrimFloat.is_nan value).

(** The MACD line: the difference of the two averages, NaN where either is
    NaN. *)
Definition macd_line (data : list JS.num) (fastPeriod slowPeriod : nat) : list JS.num :=
  let fastEMA := calculateEMA data fastPeriod in
  let slowEMA := calculateEMA data slowPeriod in
  map (fun i =>
         if PrimFloat.is_nan (JS.get fastEMA i) || PrimFloat.is_nan (JS.get slowEMA i)
         then nan
         else JS.get fastEMA i - JS.get slowEMA i)
      (seq 0 (length data)).

(** The signal line written into an all-NaN array of the input's length,
    from [signalStartIndex] on. *)
Definition macd_signal (data : list JS.num) (fastPeriod slowPeriod signalPeriod : nat)
  : list JS.num :=
  let macdLine := macd_line data fastPeriod slowPeriod in
  let validMacdLine := filter not_nan macdLine in
  let signalLine := calculateEMA validMacdLine signalPeriod in
  let startIndex := find_index not_nan macdLine 0 in
  let signalStartIndex :=
    (startIndex + Z.of_nat (length validMacdLine) - Z.of_nat (length signalLine))%Z in
  fold_left (fun padded i => set_at padded (signalStartIndex + Z.of_nat i) (JS.get signalLine i))
            (seq 0 (length signalLine))
            (repeat nan (length data)).

Definition calculateMACD (data : list JS.num) (fastPeriod slowPeriod signalPeriod : nat)
  : MACD :=
  let macdLine := macd_line data fastPeriod slowPeriod in
  let paddedSignalLine := macd_signal data fastPeriod slowPeriod signalPeriod in
  {| line := macdLine;
     signal := paddedSignalLine;
     histogram :=
       map (fun i =>
              if PrimFloat.is_nan (JS.get macdLine i)
                 || PrimFloat.is_nan (JS.get paddedSignalLine i)
              then nan
              else JS.get macdLine i - JS.get paddedSignalLine i)
           (seq 0 (length data)) |}.

(** The inner loop of [calculateBollingerBands], with its [break]. *)
Fixpoint squared_deviations (data : list JS.num) (i : nat) (mid : JS.num)
         (js : list nat) (sum : JS.num) : JS.num :=
  match js with
  | [] => sum
  | j :: rest =>
      if (Z.of_nat i - Z.of_nat j <? 0)%Z then sum
      else squared_deviations data i mid rest (sum + JS.sq (JS.get data (i - j) - mid))
  end.

Record Bands : Type := mkBands {
  upper : list JS.num;
  middle : list JS.num;
  lower : list JS.num
}.

(** The standard deviation around the middle band at index [i]. *)
Definition band_sd (data : list JS.num) (period i : nat) (mid : JS.num) : JS.num :=
  PrimFloat.sqrt (squared_deviations data i mid (seq 0 period) 0 / JS.of_nat period).

Definition calculateBollingerBands (data : list JS.num) (period : nat) (stdDev : JS.num)
  : Bands :=
  let mids := calculateSMA data period in
  {| upper :=
       map (fun i =>
              let mid := JS.get mids i in
              if PrimFloat.is_nan mid then nan
              else mid + (stdDev * band_sd data period i mid))
           (seq 0 (length data));
     middle := mids;
     lower :=
       map (fun i =>
              let mid := JS.get mids i in
              if PrimFloat.is_nan mid then nan
              else mid - (stdDev * band_sd data period i mid))
           (seq 0 (length data)) |}.

(** [TechnicalIndicators]. *)
Record TechnicalIndicators : Type := mkIndicators {
  sma : list JS.num;
  ema : list JS.num;
  macd : MACD;
  rsi : list JS.num;
  bollingerBands : Bands;
  volumes : list JS.num;
  dates : list string;
  adx : list JS.num;
  parabolicSAR : list JS.num
}.

(** [calculateAllIndicators], with the default periods written out. *)
Definition calculateAllIndicators (stockData : list StockTimeSeriesData)
  : TechnicalIndicators :=
  let prices := map close stockData in
  let highs := map high stockData in
  let lows := map low stockData in
  {| sma := calculateSMA prices 20;
     ema := calculateEMA prices 20;
     macd := calculateMACD prices 12 26 9;
     rsi := calculateRSI prices 14;
     bollingerBands := calculateBollingerBands prices 20 2;
     volumes := map volume stockData;
     dates := map date stockData;
     adx := calculateADX highs lows prices 14;
     parabolicSAR := calculateParabolicSAR highs lows prices defaultInitialAF defaultMaxAF |}.

(** *** [calculateRSI] and [calculateADX] with exceptions tracked

    Of the operations the two functions perform (index reads, arithmetic,
    comparisons, [Math.abs], [Math.max], [push], [slice], [reduce]) one can
    throw: [reduce], which raises a TypeError when it is called on an empty
    array without an initial value.  A division never throws: a zero
    denominator gives NaN or an infinity.  The definitions below follow the
    same source lines as [calculateRSI], [calculateSmoothedAverage] and
    [calculateADX] above, with every [reduce] a step that may throw. *)

Definition bind {A B : Type} (m : outcome A) (k : A -> outcome B) : outcome B :=
  match m with
  | Returns a => k a
  | Throws message => Throws message
  end.

Notation "x <- m ;; k" := (bind m (fun x => k))
  (at level 61, m at next level, right associativity).

(** [a.reduce((sum, v) => sum + v, initial)]; [initial = None] stands for a
    call without the second argument. *)
Definition reduce_add (a : list JS.num) (initial : option JS.num) : outcome JS.num :=
  match initial, a with
  | Some s, _ => Returns (fold_left PrimFloat.add a s)
  | None, x :: t => Returns (fold_left PrimFloat.add t x)
  | None, [] => Throws "Reduce of empty array with no initial value"
  end.

Definition run_calculateRSI (data : list JS.num) (period : nat) : outcome (list JS.num) :=
  let g := gains data in
  let l := losses data in
  sumGain <- reduce_add (JS.slice g 0 (Z.of_nat period)) (Some 0) ;;
  sumLoss <- reduce_add (JS.slice l 0 (Z.of_nat period)) (Some 0) ;;
  let avgGain := sumGain / JS.of_nat period in
  let avgLoss := sumLoss / JS.of_nat period in
  Returns (repeat nan period
             ++ map (fun p => rsi_value (fst p) (snd p))
                    ((avgGain, avgLoss)
                       :: rsi_loop period g l
                            (seq (period + 1) (length data - (period + 1)))
                            avgGain avgLoss)).

Definition run_calculateSmoothedAverage (data : list JS.num) (period : nat)
  : outcome (list JS.num) :=
  total <- reduce_add (JS.slice data 0 (Z.of_nat period)) (Some 0) ;;
  let firstValue := total / JS.of_nat period in
  Returns (firstValue :: smooth_loop period data (seq period (length data - period)) firstValue).

Definition run_calculateADX (highs lows closes : list JS.num) (period : nat)
  : outcome (list JS.num) :=
  let bars := bars_from_1 closes in
  sTR <- run_calculateSmoothedAverage (map (true_range highs lows closes) bars) period ;;
  sP <- run_calculateSmoothedAverage (map (plus_dm highs lows) bars) period ;;
  sM <- run_calculateSmoothedAverage (map (minus_dm highs lows) bars) period ;;
  let p := map (fun i => (JS.get sP i / JS.get sTR i) * 100) (seq 0 (length sTR)) in
  let m := map (fun i => (JS.get sM i / JS.get sTR i) * 100) (seq 0 (length sTR)) in
  let d :=
    map (fun i => (PrimFloat.abs (JS.get p i - JS.get m i) / (JS.get p i + JS.get m i)) * 100)
        (seq 0 (length p)) in
  total <- reduce_add (JS.slice d 0 (Z.of_nat period)) (Some 0) ;;
  let adx := total / JS.of_nat period in
  Returns (repeat nan (period * 2 - 1)
             ++ adx :: adx_loop period d (seq period (length d - period)) adx).

End Indicators.

(* ================================================================= *)
(** ** The prediction panel, the component that calls both engines *)

Module Panel.

(** The pieces of component state the two loaders write. *)
Record state : Type := mkState {
  technicalPrediction : option Prediction.PredictionResult;
  technicalIndicators : option Indicators.TechnicalIndicators;
  error : string
}.

Definition short_for_prediction : string :=
  "Insufficient data for prediction. Need at least 30 data points.".
Definition prediction_failed : string := "Failed to generate technical prediction.".
Definition short_for_indicators : string :=
  "Insufficient data for technical indicators. Need at least 30 data points.".

(** [loadTechnicalPrediction]: the state after the updates it requests. *)
Definition loadTechnicalPrediction (data : list StockTimeSeriesData) (st : state) : state :=
  if (length data <? 30)%nat then
    {| technicalPrediction := technicalPrediction st;
       technicalIndicators := technicalIndicators st;
       error := short_for_prediction |}
  else
    match Prediction.predictStockPrices data with
    | Returns prediction =>
        {| technicalPrediction := Some prediction;
           technicalIndicators := technicalIndicators st;
           error := error st |}
    | Throws _ =>
        {| technicalPrediction := technicalPrediction st;
           technicalIndicators := technicalIndicators st;
           error := prediction_failed |}
    end.

(** [loadTechnicalIndicators]: nothing when indicators are already loaded;
    the thrown message is not empty, so it is the one displayed. *)
Definition loadTechnicalIndicators (data : list StockTimeSeriesData) (st : state) : state :=
  match technicalIndicators st with
  | Some _ => st
  | None =>
      if (length data <? 30)%nat then
        {| technicalPrediction := technicalPrediction st;
           technicalIndicators := None;
           error := short_for_indicators |}
      else
        {| technicalPrediction := technicalPrediction st;
           technicalIndicators := Some (Indicators.calculateAllIndicators data);
           error := error st |}
  end.

End Panel.

(** The entries [data[i - period + 1 .. i]]. *)
Definition window (data : list JS.num) (i period : nat) : list JS.num :=
  firstn period (skipn (i + 1 - period) data).

(** The arithmetic mean of a list, added up from its head. *)
Definition mean (l : list JS.num) : JS.num := JS.sum l / JS.of_nat (length l).

(** Thirty bars whose closes rise by one a day from 100 to 129. *)
Definition bar_of_close (c : JS.num) : StockTimeSeriesData :=
  mkBar "2024-01-01" c c c c 1000.

Definition rising30 : list StockTimeSeriesData :=
  map (fun i => bar_of_close (JS.of_nat (100 + i))) (seq 0 30).

(** [rising30] with another first bar. *)
Definition rising30_alt : list StockTimeSeriesData :=
  bar_of_close 50 :: tl rising30.

(** Thirty bars that all trade at 100. *)
Definition flat30 : list JS.num := repeat 100 30.

(** Thirty bars that all range from 1 to 2 and close at 1.5. *)
Definition channel_highs : list JS.num := repeat 2 30.
Definition channel_lows : list JS.num := repeat 1 30.
Definition channel_closes : list JS.num := repeat 1.5 30.

(** Four bars that rise for three days and then fall through the SAR. *)
Definition sar_highs : list JS.num := [10; 11; 12; 9.5].
Definition sar_lows : list JS.num := [9; 10; 11; 7].
Definition sar_closes : list JS.num := [9.5; 10.5; 11.5; 8].

(* ================================================================= *)
(** ** Facts about binary64 arithmetic *)

Module FloatFacts.

Ltac by_spec :=
  apply Prim2SF_inj;
  rewrite ?FloatAxioms.add_spec, ?FloatAxioms.sub_spec, ?FloatAxioms.mul_spec,
    ?FloatAxioms.div_spec;
  repeat match goal with
         | |- context [Prim2SF ?x] => is_var x; destruct (Prim2SF x)
         end;
  reflexivity.

Lemma add_nan_l x : nan + x = nan.
Proof. by_spec. Qed.

Lemma add_nan_r x : x + nan = nan.
Proof. by_spec. Qed.

Lemma sub_nan_l x : nan - x = nan.
Proof. by_spec. Qed.

Lemma sub_nan_r x : x - nan = nan.
Proof. by_spec. Qed.

Lemma mul_nan_l x : nan * x = nan.
Proof. by_spec. Qed.

Lemma mul_nan_r x : x * nan = nan.
Proof. by_spec. Qed.

Lemma div_nan_l x : nan / x = nan.
Proof. by_spec. Qed.

Lemma div_nan_r x : x / nan = nan.
Proof. by_spec. Qed.

Lemma ltb_nan_l x : PrimFloat.ltb nan x = false.
Proof. rewrite FloatAxioms.ltb_spec. reflexivity. Qed.

Lemma ltb_nan_r x : PrimFloat.ltb x nan = false.
Proof. rewrite FloatAxioms.ltb_spec. destruct (Prim2SF x); reflexivity. Qed.

Lemma min_nan_r x : JS.min x nan = nan.
Proof. unfold JS.min. rewrite orb_true_r. reflexivity. Qed.

Lemma max_nan_r x : JS.max x nan = nan.
Proof. unfold JS.max. rewrite orb_true_r. reflexivity. Qed.

End FloatFacts.

Ltac nan_simpl :=
  repeat first
    [ rewrite FloatFacts.add_nan_l | rewrite FloatFacts.add_nan_r
    | rewrite FloatFacts.sub_nan_l | rewrite FloatFacts.sub_nan_r
    | rewrite FloatFacts.mul_nan_l | rewrite FloatFacts.mul_nan_r
    | rewrite FloatFacts.div_nan_l | rewrite FloatFacts.div_nan_r
    | rewrite FloatFacts.ltb_nan_l | rewrite FloatFacts.ltb_nan_r
    | rewrite FloatFacts.min_nan_r | rewrite FloatFacts.max_nan_r ].

(* ================================================================= *)
(** ** Rounding in binary64 addition *)

Module Binary64.
Local Open Scope Z_scope.

Section Digits.

Lemma digits2_bounds (m : positive) :
  2 ^ (Zpos (digits2_pos m) - 1) <= Zpos m < 2 ^ Zpos (digits2_pos m).
Proof.
  induction m as [m IH|m IH|]; cbn [digits2_pos].
  - rewrite Pos2Z.inj_succ, Z.pow_succ_r by lia.
    replace (Z.succ (Zpos (digits2_pos m)) - 1) with (Z.succ (Zpos (digits2_pos m) - 1)) by lia.
    rewrite Z.pow_succ_r by lia. lia.
  - rewrite Pos2Z.inj_succ, Z.pow_succ_r by lia.
    replace (Z.succ (Zpos (digits2_pos m)) - 1) with (Z.succ (Zpos (digits2_pos m) - 1)) by lia.
    rewrite Z.pow_succ_r by lia. lia.
  - cbn. lia.
Qed.

Lemma digits2_mono (m1 m2 : positive) :
  Zpos m1 <= Zpos m2 -> Zpos (digits2_pos m1) <= Zpos (digits2_pos m2).
Proof.
  intros H. destruct (Z.le_gt_cases (Zpos (digits2_pos m1)) (Zpos (digits2_pos m2))) as [|Hgt];
    [assumption|exfalso].
  pose proof (digits2_bounds m1) as [H1 _]. pose proof (digits2_bounds m2) as [_ H2].
  assert (2 ^ Zpos (digits2_pos m2) <= 2 ^ (Zpos (digits2_pos m1) - 1))
    by (apply Z.pow_le_mono_r; lia).
  lia.
Qed.

(** A number at least [m * 2^k] has at least [k] more digits than [m]. *)
Lemma digits2_shift (m M : positive) (k : Z) :
  0 <= k -> Zpos m * 2 ^ k <= Zpos M ->
  Zpos (digits2_pos m) + k <= Zpos (digits2_pos M).
Proof.
  intros Hk H.
  destruct (Z.le_gt_cases (Zpos (digits2_pos m) + k) (Zpos (digits2_pos M))) as [|Hgt];
    [assumption|exfalso].
  pose proof (digits2_bounds m) as [H1 _]. pose proof (digits2_bounds M) as [_ H2].
  assert (2 ^ Zpos (digits2_pos M) <= 2 ^ (Zpos (digits2_pos m) - 1 + k))
    by (apply Z.pow_le_mono_r; lia).
  rewrite Z.pow_add_r in H0 by lia.
  assert (0 < 2 ^ k) by (apply Z.pow_pos_nonneg; lia).
  nia.
Qed.

End Digits.

Section Shift.

Lemma shr_1_div2 (mrs : shr_record) :
  0 <= shr_m mrs -> shr_m (shr_1 mrs) = shr_m mrs / 2.
Proof.
  destruct mrs as [m r s]. cbn [shr_m]. intros H.
  destruct m as [|p|p]; [reflexivity| |lia].
  destruct p as [p|p|]; cbn [shr_1 shr_m].
  - rewrite Pos2Z.inj_xI. apply (Z.div_unique _ _ _ 1); lia.
  - rewrite Pos2Z.inj_xO. apply (Z.div_unique _ _ _ 0); lia.
  - reflexivity.
Qed.

Lemma iter_shr_div (p : positive) (mrs : shr_record) :
  0 <= shr_m mrs ->
  shr_m (SpecFloat.iter_pos shr_1 p mrs) = shr_m mrs / 2 ^ Zpos p.
Proof.
  revert mrs. induction p as [p IH|p IH|]; intros mrs H; cbn [SpecFloat.iter_pos].
  - assert (HP : 0 < 2 ^ Zpos p) by (apply Z.pow_pos_nonneg; lia).
    assert (H1 : 0 <= shr_m (shr_1 mrs)) by (rewrite shr_1_div2 by lia; apply Z.div_pos; lia).
    assert (H2 : 0 <= shr_m (SpecFloat.iter_pos shr_1 p (shr_1 mrs)))
      by (rewrite IH by lia; apply Z.div_pos; lia).
    rewrite IH, IH, shr_1_div2 by lia.
    replace (Zpos p~1) with (1 + Zpos p + Zpos p) by lia.
    rewrite !Z.pow_add_r, Z.pow_1_r by lia.
    rewrite !Z.div_div by lia. f_equal; lia.
  - assert (HP : 0 < 2 ^ Zpos p) by (apply Z.pow_pos_nonneg; lia).
    assert (H2 : 0 <= shr_m (SpecFloat.iter_pos shr_1 p mrs))
      by (rewrite IH by lia; apply Z.div_pos; lia).
    rewrite IH, IH by lia.
    replace (Zpos p~0) with (Zpos p + Zpos p) by lia.
    rewrite !Z.pow_add_r by lia.
    rewrite !Z.div_div by lia. f_equal; lia.
  - rewrite shr_1_div2 by lia. reflexivity.
Qed.

Lemma shr_spec (m : Z) (e n : Z) :
  0 <= m -> 0 <= n ->
  shr (shr_record_of_loc m loc_Exact) e n
  = (fst (shr (shr_record_of_loc m loc_Exact) e n), e + n)
  /\ shr_m (fst (shr (shr_record_of_loc m loc_Exact) e n)) = m / 2 ^ n.
Proof.
  intros Hm Hn. unfold shr. destruct n as [|p|p]; cbn [fst shr_record_of_loc shr_m].
  - rewrite Z.add_0_r, Z.div_1_r. auto.
  - split; [reflexivity|]. rewrite iter_shr_div; reflexivity || exact Hm.
  - lia.
Qed.

Lemma rne_bounds (m : Z) (l : location) :
  m <= round_nearest_even m l <= m + 1.
Proof.
  destruct l as [|[| |]]; cbn [round_nearest_even]; try lia.
  destruct (Z.even m); lia.
Qed.

End Shift.

Section Rounding.
Variables prec emax : Z.
Hypothesis prec_pos : 0 < prec.

Lemma fexp_mono (x y : Z) : x <= y -> fexp prec emax x <= fexp prec emax y.
Proof. unfold fexp. lia. Qed.

Lemma fexp_cases (x : Z) :
  fexp prec emax x = x - prec \/ (fexp prec emax x = SpecFloat.emin prec emax /\ x - prec <= SpecFloat.emin prec emax).
Proof. unfold fexp. lia. Qed.

Lemma fexp_ge_emin (x : Z) : SpecFloat.emin prec emax <= fexp prec emax x.
Proof. unfold fexp. lia. Qed.

Lemma iter_xO (m d : positive) : Zpos (Pos.iter xO m d) = Zpos m * 2 ^ Zpos d.
Proof.
  induction d as [|d IH] using Pos.peano_ind.
  - cbn [Pos.iter]. rewrite Z.pow_1_r. lia.
  - rewrite Pos.iter_succ, Pos2Z.inj_xO, IH, Pos2Z.inj_succ, Z.pow_succ_r by lia. lia.
Qed.

Lemma shl_align_fst (mx : positive) (ex ez : Z) :
  ez <= ex -> Zpos (fst (shl_align mx ex ez)) = Zpos mx * 2 ^ (ex - ez).
Proof.
  intros H. unfold shl_align. destruct (ez - ex) as [|d|d] eqn:E.
  - replace (ex - ez) with 0 by lia. cbn [fst]. lia.
  - lia.
  - cbn [fst]. replace (ex - ez) with (Zpos d) by lia. apply iter_xO.
Qed.

Lemma shl_align_id (mx : positive) (ex ez : Z) : ex <= ez -> shl_align mx ex ez = (mx, ex).
Proof.
  intros H. unfold shl_align. destruct (ez - ex) eqn:E; try reflexivity. lia.
Qed.

(** Adding a positive number to a positive canonical number [b] gives at
    least [b]. *)
Lemma SFadd_ge_r (ma mb : positive) (ea eb : Z) :
  canonical_mantissa prec emax mb eb = true ->
  SFleb (S754_finite false mb eb)
        (SFadd prec emax (S754_finite false ma ea) (S754_finite false mb eb)) = true.
Proof.
  intros Hcan. apply Z.eqb_eq in Hcan.
  unfold SFadd. cbn [cond_Zopp]. set (ez := Z.min ea eb).
  rewrite (shl_align_fst ma ea ez), (shl_align_fst mb eb ez) by lia.
  assert (HA : 0 < Zpos ma * 2 ^ (ea - ez))
    by (apply Z.mul_pos_pos; [lia|apply Z.pow_pos_nonneg; lia]).
  assert (HB : 0 < 2 ^ (eb - ez)) by (apply Z.pow_pos_nonneg; lia).
  destruct (Zpos ma * 2 ^ (ea - ez) + Zpos mb * 2 ^ (eb - ez)) as [|M|M] eqn:EM; try nia.
  assert (HM : Zpos mb * 2 ^ (eb - ez) <= Zpos M) by lia.
  clear EM HA. cbn [binary_normalize]. unfold binary_round.
  set (f0 := fexp prec emax (Zpos (digits2_pos M) + ez)).
  assert (Hf0 : eb <= f0).
  { rewrite <- Hcan. apply fexp_mono.
    pose proof (digits2_shift mb M (eb - ez) ltac:(lia) HM). lia. }
  rewrite (shl_align_id M ez f0) by lia.
  unfold binary_round_aux, shr_fexp. cbn [Zdigits2]. fold f0.
  destruct (shr_spec (Zpos M) ez (f0 - ez) ltac:(lia) ltac:(lia)) as [E1 Em1].
  rewrite E1. clear E1.
  set (r1 := fst (shr (shr_record_of_loc (Zpos M) loc_Exact) ez (f0 - ez))) in *.
  replace (ez + (f0 - ez)) with f0 by lia.
  assert (HP : 0 < 2 ^ (f0 - ez)) by (apply Z.pow_pos_nonneg; lia).
  assert (Hm1 : 1 <= shr_m r1 /\ (f0 = eb -> Zpos mb <= shr_m r1)).
  { rewrite Em1. split.
    - destruct (Z.eq_dec f0 eb) as [->|Hne].
      + apply Z.div_le_lower_bound; nia.
      + assert (Hemin : SpecFloat.emin prec emax <= eb)
          by (rewrite <- Hcan; apply fexp_ge_emin).
        destruct (fexp_cases (Zpos (digits2_pos M) + ez)) as [Hc|[Hc _]];
          fold f0 in Hc; [|lia].
        apply Z.div_le_lower_bound; [lia|].
        pose proof (digits2_bounds M) as [HMl _].
        assert (2 ^ (f0 - ez) <= 2 ^ (Zpos (digits2_pos M) - 1))
          by (apply Z.pow_le_mono_r; lia).
        lia.
    - intros ->. apply Z.div_le_lower_bound; nia. }
  destruct Hm1 as [Hm1 Hm1b]. clear Em1.
  pose proof (rne_bounds (shr_m r1) (loc_of_shr_record r1)) as Hm2.
  destruct (round_nearest_even (shr_m r1) (loc_of_shr_record r1)) as [|p2|p2] eqn:E2; try lia.
  cbn [Zdigits2].
  set (n2 := fexp prec emax (Zpos (digits2_pos p2) + f0) - f0).
  destruct (Z.le_gt_cases n2 0) as [Hn2|Hn2].
  - assert (Eshr : shr (shr_record_of_loc (Zpos p2) loc_Exact) f0 n2
                   = (shr_record_of_loc (Zpos p2) loc_Exact, f0))
      by (unfold shr; destruct n2; try reflexivity; lia).
    rewrite Eshr. cbn [shr_record_of_loc shr_m].
    destruct (f0 <=? emax - prec); [|reflexivity].
    unfold SFleb, SFcompare.
    destruct (Z.compare_spec eb f0) as [Heq|Hlt|Hgt]; [|reflexivity|lia].
    change (Pos.compare_cont Eq mb p2) with (Pos.compare mb p2).
    destruct (Pos.compare_spec mb p2) as [?|?|Hgt]; try reflexivity.
    specialize (Hm1b (eq_sym Heq)). lia.
  - destruct (shr_spec (Zpos p2) f0 n2 ltac:(lia) ltac:(lia)) as [E3 Em3].
    rewrite E3. clear E3.
    set (r3 := fst (shr (shr_record_of_loc (Zpos p2) loc_Exact) f0 n2)) in *.
    assert (Hm3 : 1 <= shr_m r3).
    { rewrite Em3.
      assert (Hemin : SpecFloat.emin prec emax <= f0) by apply fexp_ge_emin.
      destruct (fexp_cases (Zpos (digits2_pos p2) + f0)) as [Hc|[Hc _]]; [|lia].
      apply Z.div_le_lower_bound; [apply Z.pow_pos_nonneg; lia|].
      pose proof (digits2_bounds p2) as [Hl _].
      assert (2 ^ n2 <= 2 ^ (Zpos (digits2_pos p2) - 1))
        by (apply Z.pow_le_mono_r; lia).
      lia. }
    destruct (shr_m r3) as [|p3|p3]; try lia.
    destruct (f0 + n2 <=? emax - prec); [|reflexivity].
    unfold SFleb, SFcompare.
    destruct (Z.compare_spec eb (f0 + n2)) as [Heq|Hlt|Hgt]; [lia|reflexivity|lia].
Qed.

End Rounding.

End Binary64.

(* ================================================================= *)
(** ** Order facts on JavaScript numbers *)

Section NumberOrder.

Lemma SFcompare_refl (p : spec_float) : p <> S754_nan -> SFcompare p p = Some Eq.
Proof.
  destruct p as [s|s| |s m e]; intros H; try congruence; cbn [SFcompare].
  - reflexivity.
  - destruct s; reflexivity.
  - rewrite Z.compare_refl.
    change (Pos.compare_cont Eq m m) with (Pos.compare m m).
    rewrite Pos.compare_refl. destruct s; reflexivity.
Qed.

Lemma leb_not_nan_r (x y : JS.num) : PrimFloat.leb x y = true -> Prim2SF y <> S754_nan.
Proof.
  rewrite FloatAxioms.leb_spec. intros H E. rewrite E in H.
  destruct (Prim2SF x); discriminate.
Qed.

Lemma leb_not_nan_l (x y : JS.num) : PrimFloat.leb x y = true -> Prim2SF x <> S754_nan.
Proof.
  rewrite FloatAxioms.leb_spec. intros H E. rewrite E in H. discriminate.
Qed.

Lemma is_nan_false (x : JS.num) : Prim2SF x <> S754_nan -> PrimFloat.is_nan x = false.
Proof.
  intros H. unfold PrimFloat.is_nan. rewrite FloatAxioms.eqb_spec.
  unfold SFeqb. now rewrite SFcompare_refl.
Qed.

Lemma leb_refl (x : JS.num) : Prim2SF x <> S754_nan -> PrimFloat.leb x x = true.
Proof.
  intros H. rewrite FloatAxioms.leb_spec. unfold SFleb. now rewrite SFcompare_refl.
Qed.

(** [Math.min] of two numbers that are not NaN is one of them, and is at
    most the second. *)
Lemma min_cases (x y : JS.num) :
  Prim2SF x <> S754_nan -> Prim2SF y <> S754_nan ->
  (JS.min x y = x \/ JS.min x y = y) /\ PrimFloat.leb (JS.min x y) y = true.
Proof.
  intros Hx Hy. unfold JS.min.
  rewrite (is_nan_false x Hx), (is_nan_false y Hy). cbn [orb].
  destruct (PrimFloat.leb x y) eqn:Hle.
  - destruct (PrimFloat.eqb x y); [destruct (PrimFloat.get_sign x)|];
      auto using leb_refl.
  - auto using leb_refl.
Qed.

Lemma min_glb (z x y : JS.num) :
  PrimFloat.leb z x = true -> PrimFloat.leb z y = true ->
  PrimFloat.leb z (JS.min x y) = true.
Proof.
  intros Hx Hy.
  destruct (min_cases x y (leb_not_nan_r _ _ Hx) (leb_not_nan_r _ _ Hy)) as [[-> | ->] _];
    assumption.
Qed.

(** Adding a number that is at least [b >= 0] to [b] gives at least [b]:
    rounding cannot take the sum below a representable lower bound. *)
Lemma add_ge_r (a b : JS.num) :
  PrimFloat.leb 0 b = true -> PrimFloat.leb b a = true ->
  PrimFloat.leb b (a + b) = true.
Proof.
  rewrite !FloatAxioms.leb_spec, FloatAxioms.add_spec.
  change (Prim2SF 0) with (S754_zero false).
  pose proof (Prim2SF_valid b) as Hvalid.
  destruct (Prim2SF b) as [sb|sb| |sb mb eb]; destruct (Prim2SF a) as [sa|sa| |sa ma ea];
    intros H0 Hba;
    try destruct sb; try destruct sa; try discriminate; try reflexivity.
  cbn [valid_binary] in Hvalid. apply andb_true_iff in Hvalid. destruct Hvalid as [Hcan _].
  apply Binary64.SFadd_ge_r; [reflexivity|exact Hcan].
Qed.

End NumberOrder.

(* ================================================================= *)
(** ** The forecast engine: what the two forecasting runs leave behind *)

Section ArimaRuns.
Import Prediction.

Lemma get_overflow (a : list JS.num) (i : nat) : length a <= i -> JS.get a i = nan.
Proof. intros H. unfold JS.get. now apply nth_overflow. Qed.

Lemma get_app_r (a b : list JS.num) (i : nat) :
  JS.get (a ++ b) (length a + i) = JS.get b i.
Proof.
  unfold JS.get. rewrite app_nth2 by lia. f_equal. lia.
Qed.

(** From the second iteration on, the index [data.length - 1 + i] is past
    the end of the array the loop has itself extended. *)
Lemma arima_step_late (st : arima_state) (i : nat) :
  1 <= i ->
  data (arima_step st i) = data st ++ [nan]
  /\ predictions (arima_step st i) = predictions st ++ [nan].
Proof.
  intros Hi. unfold arima_step. cbn [data predictions].
  rewrite get_overflow by lia. rewrite FloatFacts.add_nan_l. auto.
Qed.

Lemma arima_tail (k j : nat) (st : arima_state) :
  1 <= j ->
  let st' := fold_left arima_step (seq j k) st in
  data st' = data st ++ repeat nan k
  /\ predictions st' = predictions st ++ repeat nan k.
Proof.
  revert j st. induction k as [|k IH]; intros j st Hj; cbn [seq fold_left repeat].
  - now rewrite !app_nil_r.
  - destruct (arima_step_late st j Hj) as [Hd Hp].
    destruct (IH (S j) (arima_step st j) ltac:(lia)) as [Hd' Hp'].
    cbv zeta in Hd', Hp'. rewrite Hd', Hp', Hd, Hp, <- !app_assoc. auto.
Qed.

(** A run of [k + 1] steps returns one number followed by [k] NaNs, and
    leaves the same values pushed onto its argument. *)
Lemma arima_shape (data0 : list JS.num) (k : nat) :
  arimaInspiredPrediction data0 (S k)
  = (first_forecast data0 :: repeat nan k,
     data0 ++ first_forecast data0 :: repeat nan k).
Proof.
  unfold arimaInspiredPrediction, arima_run. cbn [seq fold_left].
  set (st0 := mkArima (differences data0) data0 []).
  destruct (arima_tail k 1 (arima_step st0 0) (le_n 1)) as [Hd Hp].
  cbv zeta in Hd, Hp. rewrite Hd, Hp.
  unfold first_forecast. fold st0.
  unfold arima_step. cbn [data predictions differenced]. subst st0.
  cbn [data predictions differenced app].
  match goal with |- context [JS.get [?v] 0] => change (JS.get [v] 0) with v end.
  now rewrite <- app_assoc.
Qed.

Lemma length_backfit (closePrices : list JS.num) :
  length (backfit closePrices) = (length closePrices - trainingWindow)%nat.
Proof. unfold backfit. now rewrite length_map, length_seq. Qed.

Lemma non_null_padded (k : nat) (l : list JS.num) :
  non_null (repeat None k ++ map Some l) = l.
Proof.
  induction k; simpl; auto.
  induction l; simpl; congruence.
Qed.

(** The result of [predictStockPrices] on at least 30 bars, with the two
    runs resolved. *)
Lemma predict_unfold (stockData : list StockTimeSeriesData) :
  30 <= length stockData ->
  let c := map close stockData in
  let c2 := closes_after_runs stockData in
  let fitted := backfit c in
  predictStockPrices stockData
  = Returns {| dates := map date stockData;
               actual := c2;
               predicted := repeat None trainingWindow ++ map Some fitted;
               nextDayPrediction := first_forecast c;
               nextWeekPrediction := nan;
               confidence :=
                 calculateConfidence
                   (JS.slice_from c2 (- Z.of_nat (length fitted))) fitted;
               trend := determineTrend c2;
               supportLevel := fst (findSupportResistance c2);
               resistanceLevel := snd (findSupportResistance c2) |}.
Proof.
  intros Hn c c2 fitted. unfold predictStockPrices.
  destruct (Nat.ltb_spec (length stockData) 30) as [Hlt|_]; [lia|].
  fold c. rewrite (arima_shape c 0). cbv beta iota zeta. cbn [repeat].
  change (JS.get [first_forecast c] 0) with (first_forecast c).
  rewrite (arima_shape (c ++ [first_forecast c]) 6). cbv beta iota zeta.
  rewrite non_null_padded. fold fitted.
  match goal with
  | |- context [JS.get (?v :: repeat nan 6) 6] =>
      change (JS.get (v :: repeat nan 6) 6) with nan
  end.
  replace ((c ++ [first_forecast c]) ++ first_forecast (c ++ [first_forecast c]) :: repeat nan 6)
    with c2 by (unfold c2, closes_after_runs; fold c; now rewrite <- app_assoc).
  destruct (findSupportResistance c2) as [support resistance].
  reflexivity.
Qed.

End ArimaRuns.

(* ================================================================= *)
(** ** The forecast engine: consequences for the result *)

Section ForecastResult.
Import Prediction.

Lemma length_closes_after_runs (stockData : list StockTimeSeriesData) :
  length (closes_after_runs stockData) = (length stockData + 8)%nat.
Proof.
  unfold closes_after_runs. rewrite length_app, length_map. cbn [length repeat]. lia.
Qed.

Lemma last_closes_after_runs (stockData : list StockTimeSeriesData) :
  JS.get (closes_after_runs stockData) (length (closes_after_runs stockData) - 1) = nan.
Proof.
  rewrite length_closes_after_runs. unfold closes_after_runs.
  replace (length stockData + 8 - 1)%nat with (length (map close stockData) + 7)%nat
    by (rewrite length_map; lia).
  rewrite get_app_r. reflexivity.
Qed.

Lemma rel_index_le (len : nat) (k : Z) : (JS.rel_index len k <= len)%nat.
Proof. unfold JS.rel_index. destruct (k <? 0)%Z eqn:E; lia. Qed.

Lemma rel_index_neg (len k : nat) :
  (1 <= k <= len)%nat -> JS.rel_index len (- Z.of_nat k) = (len - k)%nat.
Proof.
  intros H. unfold JS.rel_index.
  destruct (- Z.of_nat k <? 0)%Z eqn:E; lia.
Qed.

(** The last element of a suffix is the last element of the array. *)
Lemma last_slice_from (a : list JS.num) (k : Z) :
  JS.get a (length a - 1) = nan ->
  JS.get (JS.slice_from a k) (length (JS.slice_from a k) - 1) = nan.
Proof.
  intros Hlast. unfold JS.slice_from.
  pose proof (rel_index_le (length a) k) as Hle.
  set (j := JS.rel_index (length a) k) in *.
  destruct (Nat.eq_dec j (length a)) as [->|Hne].
  - rewrite skipn_all. reflexivity.
  - rewrite length_skipn. unfold JS.get in *. rewrite nth_skipn.
    replace (j + (length a - j - 1))%nat with (length a - 1)%nat by lia. exact Hlast.
Qed.

(** A series that ends in NaN has no trend. *)
Lemma determineTrend_nan (a : list JS.num) :
  JS.get a (length a - 1) = nan -> determineTrend a = neutral.
Proof.
  intros Hlast. unfold determineTrend. cbv zeta.
  rewrite (last_slice_from a (Z.opp 10) Hlast).
  unfold JS.gt, JS.lt. nan_simpl. reflexivity.
Qed.

(** A comparison series that ends in NaN has NaN confidence. *)
Lemma calculateConfidence_nan (act pred : list JS.num) :
  (1 <= length pred)%nat -> (10 <= length act)%nat ->
  JS.get act (length act - 1) = nan ->
  calculateConfidence act pred = nan.
Proof.
  intros Hp Ha Hlast. unfold calculateConfidence.
  destruct (Nat.eqb_spec (length pred) 0) as [E|_]; [lia|].
  destruct (Nat.ltb_spec (length act) 10) as [E|_]; [lia|].
  cbn [orb]. rewrite Hlast. unfold JS.sq. nan_simpl. reflexivity.
Qed.

(** The default: no back-fit value, or fewer than ten values to compare. *)
Lemma calculateConfidence_default (act pred : list JS.num) :
  length pred = 0%nat \/ (length act < 10)%nat -> calculateConfidence act pred = 0.5.
Proof.
  intros H. unfold calculateConfidence.
  destruct (Nat.eqb_spec (length pred) 0) as [_|Hp]; [reflexivity|].
  destruct (Nat.ltb_spec (length act) 10) as [_|Ha]; [reflexivity|lia].
Qed.

Lemma predict_confidence (stockData : list StockTimeSeriesData) :
  (30 <= length stockData)%nat ->
  calculateConfidence
    (JS.slice_from (closes_after_runs stockData)
       (- Z.of_nat (length (backfit (map close stockData)))))
    (backfit (map close stockData)) = nan.
Proof.
  intros Hn.
  assert (Hfit : length (backfit (map close stockData)) = (length stockData - 20)%nat)
    by (rewrite length_backfit, length_map; reflexivity).
  apply calculateConfidence_nan.
  - lia.
  - unfold JS.slice_from. rewrite length_skipn, length_closes_after_runs, Hfit.
    rewrite rel_index_neg by lia. lia.
  - apply last_slice_from, last_closes_after_runs.
Qed.

End ForecastResult.

(* ================================================================= *)
(** ** The forecast engine: the statements of the specification *)

Section ForecastClaims.
Import Prediction.

(** C1.  On at least 30 bars the one-day forecast is the single value of a
    one-step run on the closes, and the seven-day forecast is the seventh
    value of a seven-step run; but the seven-step run receives the array the
    one-step run has pushed its forecast onto, so its input is the closes
    followed by [nextDayPrediction], and its seventh value is NaN. *)
Theorem week_run_starts_after_day_run (stockData : list StockTimeSeriesData) :
  (30 <= length stockData)%nat ->
  exists r,
    predictStockPrices stockData = Returns r
    /\ nextDayPrediction r
       = JS.get (fst (arimaInspiredPrediction (map close stockData) 1)) 0
    /\ week_run_input stockData = map close stockData ++ [nextDayPrediction r]
    /\ nextWeekPrediction r
       = JS.get (fst (arimaInspiredPrediction (week_run_input stockData) 7)) 6
    /\ nextWeekPrediction r = nan.
Proof.
  intros Hn. eexists. split; [apply (predict_unfold stockData Hn)|].
  cbn [nextDayPrediction nextWeekPrediction]. unfold week_run_input.
  rewrite (arima_shape (map close stockData) 0). cbn [fst snd repeat].
  rewrite (arima_shape _ 6). cbn [fst]. repeat split; reflexivity.
Qed.

(** C2.  On at least 30 bars the [actual] field is the input closes followed
    by the eight values the two forecasting runs pushed: the one-day
    forecast, the first value of the seven-step run and six NaNs.  Its length
    is the number of bars plus eight. *)
Theorem actual_holds_pushed_forecasts (stockData : list StockTimeSeriesData) :
  (30 <= length stockData)%nat ->
  exists r,
    predictStockPrices stockData = Returns r
    /\ actual r
       = map close stockData
           ++ nextDayPrediction r
           :: first_forecast (map close stockData ++ [nextDayPrediction r])
           :: repeat nan 6
    /\ length (actual r) = (length stockData + 8)%nat
    /\ length (dates r) = length stockData.
Proof.
  intros Hn. eexists. split; [apply (predict_unfold stockData Hn)|].
  cbn [actual nextDayPrediction dates]. split; [reflexivity|].
  split; [apply length_closes_after_runs | apply length_map].
Qed.

(** C5.  On at least 30 bars the trend is computed from the last ten
    entries of the extended close array, whose last entry is NaN: the
    returned trend is always neutral. *)
Theorem trend_always_neutral (stockData : list StockTimeSeriesData) :
  (30 <= length stockData)%nat ->
  exists r, predictStockPrices stockData = Returns r /\ trend r = neutral.
Proof.
  intros Hn. eexists. split; [apply (predict_unfold stockData Hn)|].
  cbn [trend]. apply determineTrend_nan, last_closes_after_runs.
Qed.

(** C6.  The call throws the insufficient-data error exactly when fewer
    than 30 bars are supplied: on fewer than 30 bars it throws, on 30 bars or
    more it returns a record and does not throw.  The record it returns is
    never well formed: its dates and back-fit values are as the data model
    asks (one per bar, the first 20 back-fit values null and the others
    numbers), but [actual] has eight entries more than the input has bars
    and [confidence] is NaN. *)
Theorem short_input_throws_long_input_returns_ill_formed
        (stockData : list StockTimeSeriesData) :
  ((length stockData < 30)%nat
   /\ predictStockPrices stockData = Throws insufficient)
  \/ ((30 <= length stockData)%nat
      /\ exists r,
           predictStockPrices stockData = Returns r
           /\ dates r = map date stockData
           /\ length (predicted r) = length stockData
           /\ firstn trainingWindow (predicted r) = repeat None trainingWindow
           /\ Forall (fun p => p <> None) (skipn trainingWindow (predicted r))
           /\ length (actual r) = (length stockData + 8)%nat
           /\ actual r <> map close stockData
           /\ confidence r = nan
           /\ ~ well_formed stockData r).
Proof.
  destruct (Nat.ltb_spec (length stockData) 30) as [Hlt|Hge].
  - left. split; [assumption|]. unfold predictStockPrices.
    destruct (Nat.ltb_spec (length stockData) 30); [reflexivity|lia].
  - right. split; [assumption|]. eexists. split; [apply (predict_unfold stockData Hge)|].
    cbn [dates predicted actual confidence].
    assert (Hlen : length (repeat (@None JS.num) trainingWindow) = trainingWindow)
      by apply repeat_length.
    assert (Hactual : closes_after_runs stockData <> map close stockData).
    { intros H. apply (f_equal (@length JS.num)) in H.
      rewrite length_closes_after_runs, length_map in H. lia. }
    split; [reflexivity|]. split; [|split; [|split; [|split; [|split; [|split]]]]].
    + rewrite length_app, length_map, length_backfit, length_map, Hlen.
      unfold trainingWindow. lia.
    + rewrite firstn_app, Hlen, Nat.sub_diag, firstn_O, app_nil_r.
      rewrite <- Hlen at 1. apply firstn_all.
    + rewrite skipn_app, Hlen, Nat.sub_diag. rewrite <- Hlen at 1. rewrite skipn_all.
      cbn [skipn app]. apply Forall_forall. intros p Hp.
      apply in_map_iff in Hp. destruct Hp as [v [<- _]]. discriminate.
    + apply length_closes_after_runs.
    + exact Hactual.
    + apply (predict_confidence stockData Hge).
    + unfold well_formed. cbn [actual]. intros [_ [H _]]. exact (Hactual H).
Qed.

(** C7.  On the thirty closes 100, 101, ..., 129 the returned support and
    resistance are 109 and 128, the entries at indices 9 and 28 of the
    38-entry extended array, whereas the sorted input closes hold 107 at index
    [floor(30 * 0.25)] and 122 at index [floor(30 * 0.75)]. *)
Theorem support_resistance_of_rising30 :
  exists r,
    predictStockPrices rising30 = Returns r
    /\ supportLevel r = 109 /\ resistanceLevel r = 128
    /\ JS.get (JS.sort (fun a b => a - b) (map close rising30)) (30 / 4) = 107
    /\ JS.get (JS.sort (fun a b => a - b) (map close rising30)) (30 * 3 / 4) = 122
    /\ supportLevel r = JS.get (JS.sort (fun a b => a - b) (actual r)) (38 / 4)
    /\ resistanceLevel r = JS.get (JS.sort (fun a b => a - b) (actual r)) (38 * 3 / 4).
Proof.
  eexists. split; [vm_compute; reflexivity|].
  cbn [supportLevel resistanceLevel actual]. repeat split; vm_compute; reflexivity.
Qed.

(** C8.  On at least 30 bars the back-fit values are compared with the last
    entries of the extended close array, which end in NaN: the returned
    confidence is NaN, which is neither at least 0 nor at most 1. *)
Theorem confidence_always_nan (stockData : list StockTimeSeriesData) :
  (30 <= length stockData)%nat ->
  exists r,
    predictStockPrices stockData = Returns r
    /\ confidence r = nan
    /\ PrimFloat.leb 0 (confidence r) = false
    /\ PrimFloat.leb (confidence r) 1 = false.
Proof.
  intros Hn. eexists. split; [apply (predict_unfold stockData Hn)|].
  cbn [confidence]. rewrite (predict_confidence stockData Hn).
  repeat split; reflexivity.
Qed.

Lemma week_run_starts_after_day_run_witness :
  exists r,
    predictStockPrices rising30 = Returns r
    /\ nextDayPrediction r
       = JS.get (fst (arimaInspiredPrediction (map close rising30) 1)) 0
    /\ week_run_input rising30 = map close rising30 ++ [nextDayPrediction r]
    /\ nextWeekPrediction r
       = JS.get (fst (arimaInspiredPrediction (week_run_input rising30) 7)) 6
    /\ nextWeekPrediction r = nan.
Proof. apply (week_run_starts_after_day_run rising30). vm_compute. apply le_n. Defined.

Lemma actual_holds_pushed_forecasts_witness :
  exists r,
    predictStockPrices rising30 = Returns r
    /\ actual r
       = map close rising30
           ++ nextDayPrediction r
           :: first_forecast (map close rising30 ++ [nextDayPrediction r])
           :: repeat nan 6
    /\ length (actual r) = (length rising30 + 8)%nat
    /\ length (dates r) = length rising30.
Proof. apply (actual_holds_pushed_forecasts rising30). vm_compute. apply le_n. Defined.

Lemma trend_always_neutral_witness :
  exists r, predictStockPrices rising30 = Returns r /\ trend r = neutral.
Proof. apply (trend_always_neutral rising30). vm_compute. apply le_n. Defined.

Lemma confidence_always_nan_witness :
  exists r,
    predictStockPrices rising30 = Returns r
    /\ confidence r = nan
    /\ PrimFloat.leb 0 (confidence r) = false
    /\ PrimFloat.leb (confidence r) 1 = false.
Proof. apply (confidence_always_nan rising30). vm_compute. apply le_n. Defined.

End ForecastClaims.

(* ================================================================= *)
(** ** Moving averages *)

Section MovingAverages.

Lemma length_window (data : list JS.num) (i period : nat) :
  (period <= i + 1 <= length data)%nat -> length (window data i period) = period.
Proof.
  intros H. unfold window. rewrite length_firstn, length_skipn. lia.
Qed.

Lemma fold_add_map {A} (f : A -> JS.num) (l : list A) (a : JS.num) :
  fold_left (fun sum j => sum + f j) l a = fold_left PrimFloat.add (map f l) a.
Proof. revert a. induction l as [|x l IH]; intros a; simpl; auto. Qed.

(** The inner loop adds the window from its newest entry to its oldest. *)
Lemma window_sum_rev (data : list JS.num) (i period : nat) :
  (period <= i + 1 <= length data)%nat ->
  Indicators.window_sum data i period = JS.sum (rev (window data i period)).
Proof.
  intros H. unfold Indicators.window_sum, JS.sum.
  rewrite (fold_add_map (fun j => JS.get data (i - j))).
  f_equal. apply (nth_ext _ _ nan nan).
  - rewrite length_map, length_seq, length_rev, length_window; auto.
  - intros j Hj. rewrite length_map, length_seq in Hj.
    rewrite (nth_indep _ nan (JS.get data (i - 0)))
      by (rewrite length_map, length_seq; exact Hj).
    rewrite (map_nth (fun j => JS.get data (i - j))), seq_nth by exact Hj.
    rewrite rev_nth by (rewrite length_window; auto).
    rewrite length_window by auto. unfold window.
    rewrite nth_firstn. destruct (Nat.ltb_spec (period - S j) period); [|lia].
    rewrite nth_skipn. unfold JS.get. f_equal. lia.
Qed.

Lemma indicators_sma_length (data : list JS.num) (period : nat) :
  length (Indicators.calculateSMA data period) = length data.
Proof. unfold Indicators.calculateSMA. now rewrite length_map, length_seq. Qed.

Lemma indicators_sma_get (data : list JS.num) (period i : nat) :
  (i < length data)%nat ->
  JS.get (Indicators.calculateSMA data period) i
  = if (i <? period - 1)%nat then nan
    else Indicators.window_sum data i period / JS.of_nat period.
Proof.
  intros Hi. unfold Indicators.calculateSMA, JS.get.
  rewrite (nth_indep _ nan ((fun i => if (i <? period - 1)%nat then nan
                                      else Indicators.window_sum data i period
                                           / JS.of_nat period) 0%nat))
    by (rewrite length_map, length_seq; exact Hi).
  rewrite (map_nth (fun i => if (i <? period - 1)%nat then nan
                             else Indicators.window_sum data i period / JS.of_nat period)).
  rewrite seq_nth by exact Hi. reflexivity.
Qed.

Lemma indicators_sma_warmup (data : list JS.num) (period i : nat) :
  (i < length data)%nat -> (i < period - 1)%nat ->
  JS.get (Indicators.calculateSMA data period) i = nan.
Proof.
  intros Hi Hw. rewrite indicators_sma_get by exact Hi.
  destruct (Nat.ltb_spec i (period - 1)); [reflexivity|lia].
Qed.

Lemma indicators_sma_mean (data : list JS.num) (period i : nat) :
  (period - 1 <= i < length data)%nat ->
  JS.get (Indicators.calculateSMA data period) i = mean (rev (window data i period)).
Proof.
  intros H. rewrite indicators_sma_get by lia.
  destruct (Nat.ltb_spec i (period - 1)); [lia|].
  unfold mean. rewrite length_rev, length_window by lia.
  rewrite window_sum_rev by lia. reflexivity.
Qed.

Lemma indicators_sma_short (data : list JS.num) (period : nat) :
  (length data < period)%nat ->
  Indicators.calculateSMA data period = repeat nan (length data).
Proof.
  intros H. apply (nth_ext _ _ nan nan).
  - now rewrite indicators_sma_length, repeat_length.
  - intros i Hi. rewrite indicators_sma_length in Hi.
    rewrite nth_repeat. apply indicators_sma_warmup; lia.
Qed.

Lemma prediction_sma_length (data : list JS.num) (w : nat) :
  (1 <= w)%nat -> length (Prediction.calculateSMA data w) = (length data + 1 - w)%nat.
Proof.
  intros Hw. unfold Prediction.calculateSMA. rewrite length_map, length_seq. lia.
Qed.

Lemma slice_nat {A} (a : list A) (lo hi : nat) :
  (lo <= hi <= length a)%nat ->
  JS.slice a (Z.of_nat lo) (Z.of_nat hi) = firstn (hi - lo) (skipn lo a).
Proof.
  intros H. unfold JS.slice, JS.rel_index.
  destruct (Z.ltb_spec (Z.of_nat lo) 0); [lia|].
  destruct (Z.ltb_spec (Z.of_nat hi) 0); [lia|].
  rewrite !Nat2Z.id, !Nat.min_l by lia. reflexivity.
Qed.

Lemma prediction_sma_mean (data : list JS.num) (w k : nat) :
  (1 <= w)%nat -> (k + w <= length data)%nat ->
  JS.get (Prediction.calculateSMA data w) k = mean (window data (k + w - 1) w).
Proof.
  intros Hw Hk. unfold Prediction.calculateSMA, JS.get.
  set (f := fun k : nat =>
              JS.sum (JS.slice data
                        (Z.of_nat w - 1 + Z.of_nat k - Z.of_nat w + 1)
                        (Z.of_nat w - 1 + Z.of_nat k + 1)) / JS.of_nat w).
  change (nth k (map f (seq 0 (Z.to_nat (Z.of_nat (length data) - (Z.of_nat w - 1))))) nan
          = mean (window data (k + w - 1) w)).
  assert (Hlen : (k < Z.to_nat (Z.of_nat (length data) - (Z.of_nat w - 1)))%nat) by lia.
  rewrite (nth_indep _ nan (f 0%nat)) by (rewrite length_map, length_seq; exact Hlen).
  rewrite (map_nth f), seq_nth by exact Hlen. cbn [Nat.add]. unfold f, mean.
  rewrite length_window by lia.
  replace (Z.of_nat w - 1 + Z.of_nat k - Z.of_nat w + 1)%Z with (Z.of_nat k) by lia.
  replace (Z.of_nat w - 1 + Z.of_nat k + 1)%Z with (Z.of_nat (k + w)) by lia.
  rewrite slice_nat by lia. unfold window.
  replace (k + w - k)%nat with w by lia.
  replace (k + w - 1 + 1 - w)%nat with k by lia. reflexivity.
Qed.

(** C9.  The indicator engine's [calculateSMA] is index-aligned with its
    input: it has the input's length, is all NaN on inputs shorter than the
    period, is NaN at every index below [period - 1], and from there on is the
    mean of the trailing [period] values.  The forecast engine's private
    [calculateSMA] is not padded: it has [length + 1 - window] entries, the
    [k]-th being the mean of [data[k .. k + window - 1]]. *)
Theorem sma_aligned_and_private_sma_compact (data : list JS.num) (period : nat) :
  (length (Indicators.calculateSMA data period) = length data
   /\ ((length data < period)%nat ->
       Indicators.calculateSMA data period = repeat nan (length data))
   /\ (forall i, (i < length data)%nat -> (i < period - 1)%nat ->
                 JS.get (Indicators.calculateSMA data period) i = nan)
   /\ (forall i, (period - 1 <= i < length data)%nat ->
                 JS.get (Indicators.calculateSMA data period) i
                 = mean (rev (window data i period))))
  /\ ((1 <= period)%nat ->
      length (Prediction.calculateSMA data period) = (length data + 1 - period)%nat
      /\ forall k, (k + period <= length data)%nat ->
                   JS.get (Prediction.calculateSMA data period) k
                   = mean (window data (k + period - 1) period)).
Proof.
  split; [split; [|split; [|split]]|].
  - apply indicators_sma_length.
  - apply indicators_sma_short.
  - intros i. apply indicators_sma_warmup.
  - intros i. apply indicators_sma_mean.
  - intros Hp. split.
    + now apply prediction_sma_length.
    + intros k. now apply prediction_sma_mean.
Qed.

(** C9, as stated, fails for the forecast engine's [calculateSMA]: on an
    input shorter than the period it returns the empty array, and on a longer
    input its first entry is a mean, not NaN. *)
Lemma private_sma_not_aligned :
  Prediction.calculateSMA [1; 2] 3 = []
  /\ length (Prediction.calculateSMA [1; 2] 3) <> length [1; 2]
  /\ Prediction.calculateSMA [1; 2; 3; 4; 5] 3 = [2; 3; 4]
  /\ PrimFloat.is_nan (JS.get (Prediction.calculateSMA [1; 2; 3; 4; 5] 3) 0) = false.
Proof.
  repeat split; try (vm_compute; reflexivity). vm_compute. discriminate.
Qed.

Lemma sma_aligned_and_private_sma_compact_witness :
  Indicators.calculateSMA [1; 2] 3 = repeat nan 2
  /\ JS.get (Indicators.calculateSMA [1; 2; 3; 4; 5] 3) 1 = nan
  /\ JS.get (Indicators.calculateSMA [1; 2; 3; 4; 5] 3) 4
     = mean (rev (window [1; 2; 3; 4; 5] 4 3))
  /\ JS.get (Prediction.calculateSMA [1; 2; 3; 4; 5] 3) 2
     = mean (window [1; 2; 3; 4; 5] (2 + 3 - 1) 3).
Proof.
  split; [|split; [|split]].
  - apply (proj1 (proj2 (proj1 (sma_aligned_and_private_sma_compact [1; 2] 3)))).
    simpl. lia.
  - apply (proj1 (proj2 (proj2 (proj1
             (sma_aligned_and_private_sma_compact [1; 2; 3; 4; 5] 3))))); simpl; lia.
  - apply (proj2 (proj2 (proj2 (proj1
             (sma_aligned_and_private_sma_compact [1; 2; 3; 4; 5] 3))))); simpl; lia.
  - apply (proj2 (proj2 (sma_aligned_and_private_sma_compact [1; 2; 3; 4; 5] 3)
                    ltac:(lia))). simpl. lia.
Defined.

End MovingAverages.

(* ================================================================= *)
(** ** RSI and ADX on degenerate input *)

Section Oscillators.
Import Indicators.

(** A finite number is a zero or has a mantissa and an exponent. *)
Lemma finite_cases (c : JS.num) :
  PrimFloat.is_finite c = true ->
  (exists s, Prim2SF c = S754_zero s) \/ (exists s m e, Prim2SF c = S754_finite s m e).
Proof.
  unfold PrimFloat.is_finite, Prim2SF. intros H.
  apply negb_true_iff, orb_false_iff in H. destruct H as [-> ->].
  destruct (PrimFloat.is_zero c); [left; eauto|].
  destruct (Z.frexp c) as [r ex].
  destruct (shr_fexp prec emax (Uint63Axioms.to_Z (normfr_mantissa r)) (ex - prec) loc_Exact)
    as [sh e'].
  destruct (shr_m sh); [left|right|left]; eauto.
Qed.

Lemma sub_diag (c : JS.num) : PrimFloat.is_finite c = true -> c - c = 0.
Proof.
  intros H. apply Prim2SF_inj. rewrite FloatAxioms.sub_spec.
  destruct (finite_cases c H) as [[s ->]|[s [m [e ->]]]].
  - destruct s; reflexivity.
  - unfold SF64sub, SFsub. rewrite Z.sub_diag. reflexivity.
Qed.

Lemma falsy_or_else (x d : JS.num) : JS.falsy d = false -> JS.falsy (JS.or_else x d) = false.
Proof. intros Hd. unfold JS.or_else. destruct (JS.falsy x) eqn:E; assumption. Qed.

(** The denominator of every RSI division is neither zero nor NaN. *)
Lemma rsi_denominators_truthy (data : list JS.num) (period : nat) :
  Forall (fun d => JS.falsy d = false) (rsi_denominators data period).
Proof.
  unfold rsi_denominators. apply Forall_forall. intros d Hd.
  apply in_map_iff in Hd. destruct Hd as [p [<- _]].
  apply falsy_or_else. reflexivity.
Qed.

Lemma get_repeat (c : JS.num) (n i : nat) : (i < n)%nat -> JS.get (repeat c n) i = c.
Proof.
  intros H. unfold JS.get. rewrite (nth_indep _ nan c) by now rewrite repeat_length.
  apply nth_repeat.
Qed.

Lemma map_const {A B} (f : A -> B) (b : B) (l : list A) :
  (forall x, In x l -> f x = b) -> map f l = repeat b (length l).
Proof.
  induction l as [|x l IH]; intros H; simpl; [reflexivity|].
  rewrite H by now left. f_equal. apply IH. intros y Hy. apply H. now right.
Qed.

Section Flat.
Variables (c : JS.num) (n : nat).
Hypothesis c_finite : PrimFloat.is_finite c = true.

Let flat := repeat c n.

Lemma flat_true_range (i : nat) :
  (1 <= i < n)%nat -> true_range flat flat flat i = 0.
Proof.
  intros H. unfold true_range, flat. rewrite !get_repeat by lia.
  rewrite (sub_diag c c_finite). reflexivity.
Qed.

Lemma flat_plus_dm (i : nat) : (1 <= i < n)%nat -> plus_dm flat flat i = 0.
Proof.
  intros H. unfold plus_dm, flat. rewrite !get_repeat by lia.
  rewrite (sub_diag c c_finite). reflexivity.
Qed.

Lemma flat_minus_dm (i : nat) : (1 <= i < n)%nat -> minus_dm flat flat i = 0.
Proof.
  intros H. unfold minus_dm, flat. rewrite !get_repeat by lia.
  rewrite (sub_diag c c_finite). reflexivity.
Qed.

Lemma flat_bars (f : nat -> JS.num) :
  (forall i, (1 <= i < n)%nat -> f i = 0) ->
  map f (bars_from_1 flat) = repeat 0 (n - 1).
Proof.
  intros H. unfold bars_from_1, flat. rewrite repeat_length.
  rewrite (map_const f 0).
  - now rewrite length_seq.
  - intros i Hi. apply in_seq in Hi. apply H. lia.
Qed.

End Flat.

Lemma sum_zeros (k : nat) : JS.sum (repeat 0 k) = 0.
Proof.
  unfold JS.sum. induction k as [|k IH]; [reflexivity|].
  cbn [repeat fold_left]. change (0 + 0) with 0. exact IH.
Qed.

Lemma firstn_repeat_min {A} (x : A) (p m : nat) :
  firstn p (repeat x m) = repeat x (Nat.min p m).
Proof.
  revert m. induction p as [|p IH]; intros [|m]; simpl; try reflexivity.
  now rewrite IH.
Qed.

Lemma slice_repeat {A} (x : A) (m p : nat) :
  JS.slice (repeat x m) 0 (Z.of_nat p) = repeat x (Nat.min p m).
Proof.
  unfold JS.slice, JS.rel_index. rewrite repeat_length.
  destruct (Z.ltb_spec (Z.of_nat p) 0); [lia|].
  cbn [Z.ltb Z.compare Z.to_nat Nat.min skipn]. rewrite Nat2Z.id, Nat.sub_0_r.
  rewrite firstn_repeat_min. f_equal. lia.
Qed.

Lemma smooth_loop_zeros (data : list JS.num) (idxs : list nat) :
  (forall i, In i idxs -> JS.get data i = 0) ->
  smooth_loop 14 data idxs 0 = repeat 0 (length idxs).
Proof.
  induction idxs as [|i idxs IH]; intros H; [reflexivity|].
  cbn [smooth_loop length repeat]. rewrite H by now left.
  change ((0 * (JS.of_nat 14 - 1) + 0) / JS.of_nat 14) with 0.
  f_equal. apply IH. intros j Hj. apply H. now right.
Qed.

Lemma smoothed_zeros (m : nat) :
  calculateSmoothedAverage (repeat 0 m) 14 = repeat 0 (S (m - 14)).
Proof.
  unfold calculateSmoothedAverage. rewrite slice_repeat, sum_zeros, repeat_length.
  change (0 / JS.of_nat 14) with 0. cbn [repeat]. f_equal.
  rewrite smooth_loop_zeros.
  - now rewrite length_seq.
  - intros i Hi. apply in_seq in Hi. apply get_repeat. lia.
Qed.

Lemma sum_from_nan (l : list JS.num) : fold_left PrimFloat.add l nan = nan.
Proof.
  induction l as [|x l IH]; [reflexivity|].
  cbn [fold_left]. now rewrite FloatFacts.add_nan_l.
Qed.

Lemma sum_nans (k : nat) : (1 <= k)%nat -> JS.sum (repeat nan k) = nan.
Proof.
  intros H. destruct k as [|k]; [lia|]. unfold JS.sum. cbn [repeat fold_left].
  rewrite FloatFacts.add_nan_r. apply sum_from_nan.
Qed.

Lemma adx_loop_nan (period : nat) (d : list JS.num) (idxs : list nat) :
  adx_loop period d idxs nan = repeat nan (length idxs).
Proof.
  induction idxs as [|i idxs IH]; [reflexivity|].
  cbn [adx_loop length repeat]. nan_simpl. f_equal. exact IH.
Qed.

Lemma Forall_repeat {A} (P : A -> Prop) (x : A) (k : nat) : P x -> Forall P (repeat x k).
Proof. intros H. induction k; simpl; constructor; auto. Qed.

(** On a flat series of a finite value, with the default period. *)
Lemma flat_adx (c : JS.num) (n : nat) :
  PrimFloat.is_finite c = true ->
  let flat := repeat c n in
  let k := S (n - 1 - 14) in
  smoothedTR flat flat flat 14 = repeat 0 k
  /\ smoothedPlusDM flat flat flat 14 = repeat 0 k
  /\ smoothedMinusDM flat flat flat 14 = repeat 0 k
  /\ dx flat flat flat 14 = repeat nan k
  /\ calculateADX flat flat flat 14 = repeat nan (14 * 2 - 1) ++ repeat nan (S (k - 14)).
Proof.
  intros Hc flat k.
  assert (HTR : smoothedTR flat flat flat 14 = repeat 0 k).
  { unfold smoothedTR. unfold flat at 4.
    rewrite (flat_bars c n (true_range flat flat flat)) by (apply flat_true_range; exact Hc).
    apply smoothed_zeros. }
  assert (HP : smoothedPlusDM flat flat flat 14 = repeat 0 k).
  { unfold smoothedPlusDM. unfold flat at 3.
    rewrite (flat_bars c n (plus_dm flat flat)) by (apply flat_plus_dm; exact Hc).
    apply smoothed_zeros. }
  assert (HM : smoothedMinusDM flat flat flat 14 = repeat 0 k).
  { unfold smoothedMinusDM. unfold flat at 3.
    rewrite (flat_bars c n (minus_dm flat flat)) by (apply flat_minus_dm; exact Hc).
    apply smoothed_zeros. }
  assert (HPD : plusDI flat flat flat 14 = repeat nan k).
  { unfold plusDI. rewrite HTR, HP, repeat_length.
    rewrite (map_const _ nan); [now rewrite length_seq|].
    intros i Hi. apply in_seq in Hi. rewrite !get_repeat by lia. reflexivity. }
  assert (HMD : minusDI flat flat flat 14 = repeat nan k).
  { unfold minusDI. rewrite HTR, HM, repeat_length.
    rewrite (map_const _ nan); [now rewrite length_seq|].
    intros i Hi. apply in_seq in Hi. rewrite !get_repeat by lia. reflexivity. }
  assert (HDX : dx flat flat flat 14 = repeat nan k).
  { unfold dx. rewrite HPD, HMD, repeat_length.
    rewrite (map_const _ nan); [now rewrite length_seq|].
    intros i Hi. apply in_seq in Hi. rewrite !get_repeat by lia. reflexivity. }
  repeat (split; [assumption|]).
  unfold calculateADX. cbv zeta. rewrite HDX, repeat_length.
  rewrite (slice_repeat nan k 14), sum_nans by (unfold k; lia).
  nan_simpl. rewrite adx_loop_nan, length_seq. reflexivity.
Qed.

(** C3, as stated, fails for [calculateADX]: on thirty bars at 100 the
    directional indices are computed by dividing zero by zero, and the
    result is NaN throughout; on thirty bars that range from 1 to 2 without
    moving, the true range is 1 but both directional indices are 0, so the
    DX denominator is zero. *)
Lemma adx_divides_by_zero_on_flat30 :
  In 0 (smoothedTR flat30 flat30 flat30 14)
  /\ JS.get (smoothedPlusDM flat30 flat30 flat30 14) 0
     / JS.get (smoothedTR flat30 flat30 flat30 14) 0 = nan
  /\ calculateADX flat30 flat30 flat30 14 = repeat nan 30
  /\ In 0 (dx_denominators channel_highs channel_lows channel_closes 14)
  /\ calculateADX channel_highs channel_lows channel_closes 14 = repeat nan 30.
Proof.
  split; [left; vm_compute; reflexivity|].
  split; [vm_compute; reflexivity|]. split; [vm_compute; reflexivity|].
  split; [left; vm_compute; reflexivity|vm_compute; reflexivity].
Qed.

End Oscillators.

(* ================================================================= *)
(** ** Parabolic SAR *)

Section ParabolicSAR.
Import Indicators.

Variables (highs lows : list JS.num) (initialAF maxAF : JS.num).

(** An iteration leaves the acceleration factor as it is, resets it to the
    initial value, or raises it by the initial value up to the maximum. *)
Lemma sar_step_af (st : sar_state) (i : nat) :
  af (sar_step highs lows initialAF maxAF st i) = af st
  \/ af (sar_step highs lows initialAF maxAF st i) = initialAF
  \/ af (sar_step highs lows initialAF maxAF st i) = JS.min (af st + initialAF) maxAF.
Proof.
  unfold sar_step.
  destruct (reverses highs lows i st); [auto|].
  destruct (isUptrend st && JS.gt (JS.get highs i) (ep st)); [auto|].
  destruct (negb (isUptrend st) && JS.lt (JS.get lows i) (ep st)); auto.
Qed.

(** What a reversal leaves behind. *)
Lemma sar_step_reversal (st : sar_state) (i : nat) :
  reverses highs lows i st = true ->
  sar_step highs lows initialAF maxAF st i
  = {| isUptrend := negb (isUptrend st);
       sar := if negb (isUptrend st) then JS.get lows i else JS.get highs i;
       ep := if negb (isUptrend st) then JS.get highs i else JS.get lows i;
       af := initialAF |}.
Proof. intros H. unfold sar_step. now rewrite H. Qed.

(** What each branch of the loop body does to the acceleration factor and
    to the extreme point: a reversal resets the factor; without a reversal,
    a bar that extends the extreme point (a higher high in an uptrend, a
    lower low in a downtrend) raises the factor by the initial one, capped;
    any other bar leaves both as they are. *)
Lemma sar_step_branches (st : sar_state) (i : nat) :
  let st' := sar_step highs lows initialAF maxAF st i in
  let extends := (isUptrend st && JS.gt (JS.get highs i) (ep st))
                 || (negb (isUptrend st) && JS.lt (JS.get lows i) (ep st)) in
  (reverses highs lows i st = true -> af st' = initialAF)
  /\ (reverses highs lows i st = false -> extends = true ->
      af st' = JS.min (af st + initialAF) maxAF
      /\ ep st' = (if isUptrend st then JS.get highs i else JS.get lows i))
  /\ (reverses highs lows i st = false -> extends = false ->
      af st' = af st /\ ep st' = ep st).
Proof.
  cbv zeta. unfold sar_step.
  destruct (reverses highs lows i st).
  - split; [reflexivity|]. split; discriminate.
  - split; [discriminate|].
    destruct (isUptrend st); cbn [andb negb orb].
    + destruct (JS.gt (JS.get highs i) (ep st)); cbn [af ep];
        split; intros _ H; try discriminate H; split; reflexivity.
    + destruct (JS.lt (JS.get lows i) (ep st)); cbn [af ep];
        split; intros _ H; try discriminate H; split; reflexivity.
Qed.

Hypothesis initialAF_nonneg : PrimFloat.leb 0 initialAF = true.
Hypothesis initialAF_le_maxAF : PrimFloat.leb initialAF maxAF = true.

Lemma af_in_range_init (closes : list JS.num) :
  af_in_range initialAF maxAF (sar_init highs lows closes initialAF).
Proof.
  unfold af_in_range, sar_init. cbn [af]. split; [|assumption].
  apply leb_refl. eapply leb_not_nan_l. eassumption.
Qed.

Lemma af_in_range_step (st : sar_state) (i : nat) :
  af_in_range initialAF maxAF st -> af_in_range initialAF maxAF (sar_step highs lows initialAF maxAF st i).
Proof.
  intros [Hlo Hhi]. unfold af_in_range.
  destruct (sar_step_af st i) as [-> | [-> | ->]].
  - auto.
  - split; [|assumption]. apply leb_refl. eapply leb_not_nan_l. eassumption.
  - pose proof (add_ge_r (af st) initialAF initialAF_nonneg Hlo) as Hsum.
    split.
    + now apply min_glb.
    + apply min_cases; eauto using leb_not_nan_r.
Qed.

Lemma af_in_range_scan (idxs : list nat) (st : sar_state) :
  af_in_range initialAF maxAF st ->
  Forall (af_in_range initialAF maxAF) (map snd (sar_scan highs lows initialAF maxAF idxs st)).
Proof.
  revert st. induction idxs as [|i idxs IH]; intros st Hst; cbn [sar_scan map snd].
  - constructor.
  - constructor; [|apply IH]; now apply af_in_range_step.
Qed.

End ParabolicSAR.

Section ParabolicSARClaims.
Import Indicators.

(** C4.  When a reversal triggers on bar [i] (uptrend and the bar's low
    below the SAR just computed, or downtrend and the bar's high above it),
    the trend flips, the extreme point becomes the bar's high (new uptrend)
    or low (new downtrend), the acceleration factor becomes the initial one,
    and the SAR becomes the bar's low (new uptrend) or the bar's high (new
    downtrend). *)
Theorem reversal_resets_to_current_bar
        (highs lows : list JS.num) (initialAF maxAF : JS.num) (st : sar_state) (i : nat) :
  (isUptrend st = true
   /\ JS.lt (JS.get lows i) (sar_advance highs lows i st) = true)
  \/ (isUptrend st = false
      /\ JS.gt (JS.get highs i) (sar_advance highs lows i st) = true) ->
  let st' := sar_step highs lows initialAF maxAF st i in
  isUptrend st' = negb (isUptrend st)
  /\ sar st' = (if isUptrend st' then JS.get lows i else JS.get highs i)
  /\ ep st' = (if isUptrend st' then JS.get highs i else JS.get lows i)
  /\ af st' = initialAF.
Proof.
  intros H st'.
  assert (Hrev : reverses highs lows i st = true).
  { unfold reverses. destruct H as [[-> ->]|[-> ->]]; reflexivity. }
  unfold st'. rewrite (sar_step_reversal highs lows initialAF maxAF st i Hrev).
  cbn [isUptrend sar ep af]. repeat split.
Qed.

(** C4, as stated, fails: on the example bars the uptrend reverses at bar 3,
    where the prior extreme point is 12 and the SAR is reset to 9.5, the
    high of bar 3. *)
Lemma reversal_sar_is_not_prior_extreme :
  let states := sar_states sar_highs sar_lows sar_closes defaultInitialAF defaultMaxAF in
  let prior := nth 2 states (sar_init sar_highs sar_lows sar_closes defaultInitialAF) in
  let next := nth 3 states (sar_init sar_highs sar_lows sar_closes defaultInitialAF) in
  next = sar_step sar_highs sar_lows defaultInitialAF defaultMaxAF prior 3
  /\ isUptrend prior = true
  /\ JS.lt (JS.get sar_lows 3) (sar_advance sar_highs sar_lows 3 prior) = true
  /\ ep prior = 12
  /\ sar next = 9.5
  /\ sar next <> ep prior.
Proof.
  cbv zeta. repeat split; try (vm_compute; reflexivity).
  intros H. apply (f_equal (fun x => PrimFloat.eqb x 12)) in H.
  vm_compute in H. discriminate.
Qed.

Lemma reversal_resets_to_current_bar_witness :
  let st := mkSar true 12 9 0.06 in
  let st' := sar_step sar_highs sar_lows defaultInitialAF defaultMaxAF st 3 in
  isUptrend st' = negb (isUptrend st)
  /\ sar st' = (if isUptrend st' then JS.get sar_lows 3 else JS.get sar_highs 3)
  /\ ep st' = (if isUptrend st' then JS.get sar_highs 3 else JS.get sar_lows 3)
  /\ af st' = defaultInitialAF.
Proof.
  apply (reversal_resets_to_current_bar sar_highs sar_lows defaultInitialAF defaultMaxAF
           (mkSar true 12 9 0.06) 3).
  left. split; vm_compute; reflexivity.
Defined.

(** C10.  If the initial acceleration factor is at least zero and at most
    the maximum, then in every state of the scan, before the loop and after
    each iteration, the acceleration factor lies between the initial one and
    the maximum.  Each iteration changes it in one of three ways, each tied
    to its trigger: on a reversal it is reset to the initial one; with no
    reversal, when the bar extends the extreme point (a higher high in an
    uptrend, a lower low in a downtrend), it is raised by the initial one,
    capped at the maximum, and the extreme point becomes that high or low;
    otherwise it and the extreme point stay as they are. *)
Theorem af_stays_in_range
        (highs lows closes : list JS.num) (initialAF maxAF : JS.num) :
  PrimFloat.leb 0 initialAF = true ->
  PrimFloat.leb initialAF maxAF = true ->
  Forall (fun st => PrimFloat.leb initialAF (af st) = true
                    /\ PrimFloat.leb (af st) maxAF = true)
         (sar_states highs lows closes initialAF maxAF)
  /\ forall st i,
       let st' := sar_step highs lows initialAF maxAF st i in
       let extends := (isUptrend st && JS.gt (JS.get highs i) (ep st))
                      || (negb (isUptrend st) && JS.lt (JS.get lows i) (ep st)) in
       (reverses highs lows i st = true -> af st' = initialAF)
       /\ (reverses highs lows i st = false -> extends = true ->
           af st' = JS.min (af st + initialAF) maxAF
           /\ ep st' = (if isUptrend st then JS.get highs i else JS.get lows i))
       /\ (reverses highs lows i st = false -> extends = false ->
           af st' = af st /\ ep st' = ep st).
Proof.
  intros H0 Hle. split; [|apply sar_step_branches].
  unfold sar_states, sar_run. constructor.
  - now apply af_in_range_init.
  - apply (af_in_range_scan highs lows initialAF maxAF H0 Hle).
    now apply af_in_range_init.
Qed.

(** C10, as stated, fails for a negative initial factor: with -0.02 and 0.2
    the factor after bar 1 is -0.04, below the initial one. *)
Lemma negative_initial_af_leaves_range :
  let states := sar_states sar_highs sar_lows sar_closes (-0.02) 0.2 in
  PrimFloat.leb (-0.02) 0.2 = true
  /\ af (nth 1 states (sar_init sar_highs sar_lows sar_closes (-0.02))) = -0.04
  /\ PrimFloat.leb (-0.02)
       (af (nth 1 states (sar_init sar_highs sar_lows sar_closes (-0.02)))) = false.
Proof. cbv zeta. repeat split; vm_compute; reflexivity. Qed.

Lemma af_stays_in_range_witness :
  Forall (fun st => PrimFloat.leb defaultInitialAF (af st) = true
                    /\ PrimFloat.leb (af st) defaultMaxAF = true)
         (sar_states sar_highs sar_lows sar_closes defaultInitialAF defaultMaxAF)
  /\ af (sar_step sar_highs sar_lows defaultInitialAF defaultMaxAF
                  (sar_init sar_highs sar_lows sar_closes defaultInitialAF) 1)
     = JS.min (defaultInitialAF + defaultInitialAF) defaultMaxAF
  /\ af (sar_step sar_highs sar_lows defaultInitialAF defaultMaxAF (mkSar true 12 9 0.06) 3)
     = defaultInitialAF.
Proof.
  destruct (af_stays_in_range sar_highs sar_lows sar_closes defaultInitialAF defaultMaxAF)
    as [Hrange Hstep]; [vm_compute; reflexivity | vm_compute; reflexivity |].
  split; [exact Hrange|]. split.
  - apply (Hstep (sar_init sar_highs sar_lows sar_closes defaultInitialAF) 1%nat);
      vm_compute; reflexivity.
  - apply (Hstep (mkSar true 12 9 0.06) 3%nat). vm_compute; reflexivity.
Defined.

End ParabolicSARClaims.

(* ================================================================= *)
(** ** Further order facts on JavaScript numbers *)

Section NumberOrderMore.

Lemma SFcompare_antisym (x y : spec_float) (c : comparison) :
  SFcompare x y = Some c -> SFcompare y x = Some (CompOpp c).
Proof.
  destruct x as [sx|sx| |sx mx ex], y as [sy|sy| |sy my ey]; cbn [SFcompare];
    try discriminate;
    try (intros [= <-]; try destruct sx; try destruct sy; reflexivity).
  intros [= <-]. f_equal.
  destruct sx, sy; try reflexivity.
  - rewrite (Z.compare_antisym ex ey).
    destruct (ex ?= ey)%Z; cbn [CompOpp]; try reflexivity.
    change (PosDef.Pos.compare_cont Eq my mx) with (Pos.compare_cont Eq my mx).
    change (PosDef.Pos.compare_cont Eq mx my) with (Pos.compare_cont Eq mx my).
    rewrite (Pos.compare_cont_antisym mx my Eq). reflexivity.
  - rewrite (Z.compare_antisym ex ey).
    destruct (ex ?= ey)%Z; cbn [CompOpp]; try reflexivity.
    change (PosDef.Pos.compare_cont Eq my mx) with (Pos.compare_cont Eq my mx).
    change (PosDef.Pos.compare_cont Eq mx my) with (Pos.compare_cont Eq mx my).
    rewrite (Pos.compare_cont_antisym mx my Eq). reflexivity.
Qed.

Lemma SFcompare_some (x y : spec_float) :
  x <> S754_nan -> y <> S754_nan -> exists c, SFcompare x y = Some c.
Proof.
  destruct x, y; intros Hx Hy; try congruence; cbn [SFcompare]; eauto.
Qed.

Lemma not_nan_spec (x : JS.num) : PrimFloat.is_nan x = false -> Prim2SF x <> S754_nan.
Proof.
  unfold PrimFloat.is_nan. rewrite FloatAxioms.eqb_spec. intros H E.
  rewrite E in H. discriminate.
Qed.

(** The order is total away from NaN. *)
Lemma leb_total (x y : JS.num) :
  Prim2SF x <> S754_nan -> Prim2SF y <> S754_nan ->
  PrimFloat.leb x y = false -> PrimFloat.leb y x = true.
Proof.
  intros Hx Hy. rewrite !FloatAxioms.leb_spec. unfold SFleb.
  destruct (SFcompare_some _ _ Hx Hy) as [c Hc]. rewrite Hc.
  rewrite (SFcompare_antisym _ _ _ Hc). destruct c; intros; try discriminate; reflexivity.
Qed.

Lemma eqb_leb_sym (x y : JS.num) : PrimFloat.eqb x y = true -> PrimFloat.leb y x = true.
Proof.
  rewrite FloatAxioms.eqb_spec, FloatAxioms.leb_spec. unfold SFeqb, SFleb.
  destruct (SFcompare (Prim2SF x) (Prim2SF y)) as [c|] eqn:Hc; [|discriminate].
  rewrite (SFcompare_antisym _ _ _ Hc). destruct c; intros; try discriminate; reflexivity.
Qed.

Lemma min_le_l (x y : JS.num) :
  Prim2SF x <> S754_nan -> Prim2SF y <> S754_nan -> PrimFloat.leb (JS.min x y) x = true.
Proof.
  intros Hx Hy. unfold JS.min.
  rewrite (is_nan_false x Hx), (is_nan_false y Hy). cbn [orb].
  destruct (PrimFloat.leb x y) eqn:Hle.
  - destruct (PrimFloat.eqb x y) eqn:He; [destruct (PrimFloat.get_sign x)|];
      auto using leb_refl, eqb_leb_sym.
  - now apply leb_total.
Qed.

(** [Math.max(0, m)] for an [m] that is not NaN is [0], or [m] itself when
    [m] is at least [0]. *)
Lemma max_zero_cases (m : JS.num) :
  Prim2SF m <> S754_nan ->
  JS.max 0 m = 0 \/ (JS.max 0 m = m /\ PrimFloat.leb 0 m = true).
Proof.
  intros Hm. unfold JS.max. rewrite (is_nan_false m Hm).
  change (PrimFloat.is_nan 0) with false. cbn [orb].
  change (PrimFloat.get_sign 0) with false.
  destruct (PrimFloat.leb m 0) eqn:Hle.
  - destruct (PrimFloat.eqb 0 m); auto.
  - right. split; [reflexivity|]. apply leb_total; auto. discriminate.
Qed.

(** The clamp [Math.max(0, Math.min(1, v))] is NaN or lies in [0, 1]. *)
Lemma clamp_unit (v : JS.num) :
  let c := JS.max 0 (JS.min 1 v) in
  c = nan \/ (PrimFloat.leb 0 c = true /\ PrimFloat.leb c 1 = true).
Proof.
  cbv zeta. destruct (PrimFloat.is_nan v) eqn:Hv.
  - left. unfold JS.min. rewrite Hv, orb_true_r. apply FloatFacts.max_nan_r.
  - right. apply not_nan_spec in Hv.
    assert (H1 : Prim2SF 1 <> S754_nan) by discriminate.
    pose proof (min_le_l 1 v H1 Hv) as Hle.
    assert (Hm : Prim2SF (JS.min 1 v) <> S754_nan) by (eapply leb_not_nan_l; eassumption).
    destruct (max_zero_cases _ Hm) as [-> | [-> H0]]; auto.
Qed.

End NumberOrderMore.

(* ================================================================= *)
(** ** Further properties of the forecast engine *)

Section ForecastMore.
Import Prediction.

Lemma get_skipn (a : list JS.num) (k i : nat) : JS.get (skipn k a) i = JS.get a (k + i).
Proof. unfold JS.get. apply nth_skipn. Qed.

Lemma get_last_slice_from (a : list JS.num) (k : Z) :
  (k < 0)%Z ->
  JS.get (JS.slice_from a k) (length (JS.slice_from a k) - 1) = JS.get a (length a - 1).
Proof.
  intros Hk. unfold JS.slice_from. pose proof (rel_index_le (length a) k) as Hle.
  set (j := JS.rel_index (length a) k) in *.
  destruct (Nat.eq_dec j (length a)) as [E|Hne].
  - rewrite E, skipn_all. cbn [length Nat.sub]. unfold JS.get at 1. cbn [nth].
    symmetry. destruct a as [|x a]; [reflexivity|].
    cbn [length] in *. subst j. exfalso.
    unfold JS.rel_index in E. destruct (k <? 0)%Z eqn:Ek; lia.
  - rewrite length_skipn, get_skipn. f_equal. lia.
Qed.

(** The result of [arimaInspiredPrediction]: as many predictions as days
    asked for, every one after the first NaN, and the argument array left
    extended by exactly the predictions returned. *)
Theorem arima_predictions_after_first_are_nan (data0 : list JS.num) (days : nat) :
  let preds := fst (arimaInspiredPrediction data0 days) in
  length preds = days
  /\ snd (arimaInspiredPrediction data0 days) = data0 ++ preds
  /\ forall i, (1 <= i < days)%nat -> JS.get preds i = nan.
Proof.
  destruct days as [|k]; cbv zeta.
  - cbn. rewrite app_nil_r. repeat split. intros i Hi. lia.
  - rewrite arima_shape. cbn [fst snd]. split; [|split].
    + cbn [length]. now rewrite repeat_length.
    + reflexivity.
    + intros i Hi. destruct i as [|i]; [lia|].
      unfold JS.get. cbn [nth]. apply nth_repeat.
Qed.

Lemma fold_lr_sumY_nan (xs ys : list JS.num) (idxs : list nat) (s : sums) :
  sumY s = nan -> sumY (fold_left (lr_step xs ys) idxs s) = nan.
Proof.
  revert s. induction idxs as [|i idxs IH]; intros s H; cbn [fold_left]; [assumption|].
  apply IH. unfold lr_step. cbn [sumY]. rewrite H. apply FloatFacts.add_nan_l.
Qed.

Lemma regression_reads_past_y (xs ys : list JS.num) (predict : JS.num) :
  (length ys < length xs)%nat -> linearRegression xs ys predict = nan.
Proof.
  intros H. unfold linearRegression.
  set (s := fold_left (lr_step xs ys) (seq 0 (length xs)) (mkSums 0 0 0 0)).
  assert (Hs : sumY s = nan).
  { unfold s.
    replace (length xs) with (length ys + S (length xs - S (length ys)))%nat by lia.
    rewrite seq_app, fold_left_app. cbn [seq fold_left Nat.add].
    apply fold_lr_sumY_nan. unfold lr_step. cbn [sumY].
    rewrite get_overflow by lia. apply FloatFacts.add_nan_r. }
  cbv zeta. rewrite Hs. nan_simpl. reflexivity.
Qed.

(** A regression whose y-series is shorter than its x-series reads past the
    end of the y-series and returns NaN. *)
Theorem linearRegression_short_y (xs ys : list JS.num) (predict : JS.num) :
  (length ys < length xs)%nat -> linearRegression xs ys predict = nan.
Proof. apply regression_reads_past_y. Qed.

Lemma length_differences (data0 : list JS.num) :
  length (differences data0) = (length data0 - 1)%nat.
Proof. unfold differences. now rewrite length_map, length_seq. Qed.

Lemma first_forecast_short (data0 : list JS.num) :
  (length data0 < 6)%nat -> first_forecast data0 = nan.
Proof.
  intros H. unfold first_forecast, arima_step. cbn [predictions differenced data app].
  unfold JS.get at 1. cbn [nth].
  rewrite regression_reads_past_y; [apply FloatFacts.add_nan_r|].
  unfold JS.slice_from. rewrite length_skipn, length_differences.
  unfold positions. rewrite length_map, length_seq. unfold ar_window. lia.
Qed.

(** With fewer than six data points there are fewer than five differences
    to regress on, and every prediction is NaN. *)
Theorem arima_needs_six_points (data0 : list JS.num) (days : nat) :
  (length data0 < 6)%nat ->
  fst (arimaInspiredPrediction data0 days) = repeat nan days.
Proof.
  intros H. destruct days as [|k]; [reflexivity|].
  rewrite arima_shape. cbn [fst repeat]. now rewrite first_forecast_short.
Qed.

Lemma arima_predictions_after_first_are_nan_witness :
  JS.get (fst (arimaInspiredPrediction [1; 2; 4; 7; 11; 16] 3)) 2 = nan.
Proof.
  apply (proj2 (proj2 (arima_predictions_after_first_are_nan [1; 2; 4; 7; 11; 16] 3))).
  lia.
Defined.

Lemma linearRegression_short_y_witness :
  linearRegression [1; 2; 3; 4; 5] [1; 1; 1] 6 = nan.
Proof. apply linearRegression_short_y. simpl. lia. Defined.

Lemma arima_needs_six_points_witness :
  fst (arimaInspiredPrediction [1; 2; 4; 7; 11] 3) = repeat nan 3.
Proof. apply arima_needs_six_points. simpl. lia. Defined.

Lemma trend_of_two_points (a : list JS.num) :
  determineTrend a
  = determineTrend [JS.get a (length a - 10); JS.get a (length a - 1)].
Proof.
  unfold determineTrend. cbv zeta.
  rewrite get_last_slice_from by lia.
  assert (E0 : JS.get (JS.slice_from a (Z.opp 10)) 0 = JS.get a (length a - 10)).
  { unfold JS.slice_from. rewrite get_skipn. f_equal.
    unfold JS.rel_index. destruct (Z.opp 10 <? 0)%Z eqn:E; [lia|discriminate]. }
  rewrite E0. reflexivity.
Qed.

(** [determineTrend] looks at two entries only: the last one and the one
    nine places before it (the first one when the series has fewer than ten
    entries). *)
Theorem determineTrend_two_points (a : list JS.num) :
  determineTrend a
  = determineTrend [JS.get a (length a - 10); JS.get a (length a - 1)].
Proof. apply trend_of_two_points. Qed.

Lemma unchanged_percent (c : JS.num) :
  PrimFloat.ltb 3 ((c - c) / c * 100) = false
  /\ PrimFloat.ltb ((c - c) / c * 100) (-3) = false.
Proof.
  rewrite !FloatAxioms.ltb_spec, !FloatAxioms.mul_spec, !FloatAxioms.div_spec,
    !FloatAxioms.sub_spec.
  set (p100 := Prim2SF 100). set (p3 := Prim2SF 3). set (m3 := Prim2SF (-3)).
  vm_compute in p100, p3, m3.
  destruct (Prim2SF c) as [s|s| |s m e].
  - destruct s; split; reflexivity.
  - destruct s; split; reflexivity.
  - split; reflexivity.
  - unfold SF64sub, SFsub. rewrite Z.sub_diag. cbn [binary_normalize].
    destruct s; split; reflexivity.
Qed.

(** A series whose two compared entries are the same number, whatever it
    is, has a neutral trend. *)
Theorem determineTrend_unchanged (a : list JS.num) :
  JS.get a (length a - 10) = JS.get a (length a - 1) -> determineTrend a = neutral.
Proof.
  intros H. rewrite trend_of_two_points, H.
  set (c := JS.get a (length a - 1)).
  unfold determineTrend. cbv zeta.
  change (JS.slice_from [c; c] (Z.opp 10)) with [c; c].
  change (JS.get [c; c] 0) with c. change (JS.get [c; c] (length [c; c] - 1)) with c.
  unfold JS.gt, JS.lt. destruct (unchanged_percent c) as [-> ->]. reflexivity.
Qed.

Lemma determineTrend_unchanged_witness : determineTrend (repeat 100 30) = neutral.
Proof. apply determineTrend_unchanged. vm_compute. reflexivity. Defined.

(** The confidence is NaN or a number between 0 and 1, whatever the two
    series hold. *)
Theorem confidence_nan_or_in_unit_interval (act pred : list JS.num) :
  let c := calculateConfidence act pred in
  c = nan \/ (PrimFloat.leb 0 c = true /\ PrimFloat.leb c 1 = true).
Proof.
  cbv zeta. unfold calculateConfidence.
  destruct ((length pred =? 0)%nat || (length act <? 10)%nat).
  - right. split; reflexivity.
  - apply clamp_unit.
Qed.

End ForecastMore.

Section ForecastLevels.
Import Prediction.







Lemma nth_map_seq {B} (f : nat -> B) (a m j : nat) (d : B) :
  (j < m)%nat -> nth j (map f (seq a m)) d = f (a + j)%nat.
Proof.
  intros H. rewrite (nth_indep _ d (f 0%nat)) by (rewrite length_map, length_seq; exact H).
  rewrite (map_nth f), seq_nth by exact H. reflexivity.
Qed.

(** On at least 30 bars, the back-fit value at an index from 20 on is the
    regression over the 20 closes before that index, evaluated one step
    ahead: it uses no close at or after the index, and none of the values
    the forecasting runs push. *)
Theorem predicted_is_fit_of_previous_twenty (stockData : list StockTimeSeriesData) :
  (30 <= length stockData)%nat ->
  exists r,
    predictStockPrices stockData = Returns r
    /\ forall i, (20 <= i < length stockData)%nat ->
         nth i (predicted r) None
         = Some (linearRegression (positions 20)
                   (firstn 20 (skipn (i - 20) (map close stockData)))
                   (JS.of_nat 21)).
Proof.
  intros Hn. eexists. split; [apply (predict_unfold stockData Hn)|].
  cbn [predicted]. intros i Hi.
  rewrite app_nth2 by (rewrite repeat_length; unfold trainingWindow; lia).
  rewrite repeat_length. unfold trainingWindow.
  rewrite (nth_indep _ None (Some nan))
    by (rewrite length_map, length_backfit, length_map; unfold trainingWindow; lia).
  rewrite (map_nth Some). f_equal. unfold backfit, trainingWindow.
  rewrite nth_map_seq by (rewrite length_map; lia).
  replace (20 + (i - 20))%nat with i by lia.
  replace (Z.of_nat i - Z.of_nat 20)%Z with (Z.of_nat (i - 20)) by lia.
  rewrite slice_nat by (rewrite length_map; lia).
  replace (i - (i - 20))%nat with 20%nat by lia. reflexivity.
Qed.

Lemma predicted_is_fit_of_previous_twenty_witness :
  exists r,
    predictStockPrices rising30 = Returns r
    /\ nth 25 (predicted r) None
       = Some (linearRegression (positions 20)
                 (firstn 20 (skipn (25 - 20) (map close rising30)))
                 (JS.of_nat 21)).
Proof.
  destruct (predicted_is_fit_of_previous_twenty rising30) as [r [Hr Hp]].
  - vm_compute. apply le_n.
  - exists r. split; [exact Hr|]. apply Hp. vm_compute. split; [apply le_S_n|];
      repeat constructor.
Defined.

Lemma differences_suffix (c : list JS.num) :
  (6 <= length c)%nat ->
  skipn (length c - 6) (differences c) = differences (skipn (length c - 6) c).
Proof.
  intros H. unfold differences. rewrite length_skipn.
  replace (length c - (length c - 6) - 1)%nat with 5%nat by lia.
  apply (nth_ext _ _ nan nan).
  - rewrite length_skipn, !length_map, !length_seq. lia.
  - intros j Hj. rewrite length_skipn, length_map, length_seq in Hj.
    rewrite nth_skipn, !nth_map_seq by lia.
    fold (JS.get (skipn (length c - 6) c) (1 + j)).
    fold (JS.get (skipn (length c - 6) c) (1 + j - 1)).
    rewrite !get_skipn. f_equal; f_equal; lia.
Qed.

(** The first forecast of a run is computed from the last six data points. *)
Lemma first_forecast_suffix (c : list JS.num) :
  (6 <= length c)%nat -> first_forecast c = first_forecast (skipn (length c - 6) c).
Proof.
  intros H. unfold first_forecast, arima_step. cbn [predictions differenced data app].
  unfold JS.get at 1 3. cbn [nth].
  fold (JS.get c (length c - 1 + 0)).
  fold (JS.get (skipn (length c - 6) c) (length (skipn (length c - 6) c) - 1 + 0)).
  rewrite get_skipn, length_skipn. f_equal; [f_equal; lia|].
  f_equal. unfold JS.slice_from. rewrite !length_differences, length_skipn.
  unfold JS.rel_index, ar_window.
  destruct (Z.ltb_spec (Z.of_nat (length c - 1) - Z.of_nat 5) 0); [lia|].
  destruct (Z.ltb_spec (Z.of_nat (length c - (length c - 6) - 1) - Z.of_nat 5) 0); [lia|].
  replace (Nat.min (Z.to_nat (Z.of_nat (length c - 1) - Z.of_nat 5)) (length c - 1))
    with (length c - 6)%nat by lia.
  replace (Nat.min (Z.to_nat (Z.of_nat (length c - (length c - 6) - 1) - Z.of_nat 5))
                   (length c - (length c - 6) - 1)) with 0%nat by lia.
  cbn [skipn]. now apply differences_suffix.
Qed.

(** Two inputs of at least 30 bars whose last six closes agree get the same
    one-day forecast. *)
Theorem next_day_depends_on_last_six_closes (d1 d2 : list StockTimeSeriesData) :
  (30 <= length d1)%nat -> (30 <= length d2)%nat ->
  skipn (length d1 - 6) (map close d1) = skipn (length d2 - 6) (map close d2) ->
  exists r1 r2,
    predictStockPrices d1 = Returns r1 /\ predictStockPrices d2 = Returns r2
    /\ nextDayPrediction r1 = nextDayPrediction r2.
Proof.
  intros H1 H2 E. eexists. eexists.
  split; [apply (predict_unfold d1 H1)|]. split; [apply (predict_unfold d2 H2)|].
  cbn [nextDayPrediction].
  rewrite (first_forecast_suffix (map close d1)), (first_forecast_suffix (map close d2))
    by (rewrite length_map; lia).
  rewrite !length_map. now rewrite E.
Qed.

Lemma next_day_depends_on_last_six_closes_witness :
  exists r1 r2,
    predictStockPrices rising30 = Returns r1
    /\ predictStockPrices rising30_alt = Returns r2
    /\ nextDayPrediction r1 = nextDayPrediction r2.
Proof.
  apply next_day_depends_on_last_six_closes.
  - vm_compute. apply le_n.
  - vm_compute. apply le_n.
  - vm_compute. reflexivity.
Defined.

End ForecastLevels.

(* ================================================================= *)
(** ** Further properties of the indicator engine: moving averages *)

Section ExponentialAverage.
Import Indicators.

Variables (data : list JS.num) (period : nat).

Let k : JS.num := ema_multiplier period.

Lemma length_ema_loop (idxs : list nat) (e : JS.num) :
  length (ema_loop period k data idxs e) = length idxs.
Proof.
  revert e. induction idxs as [|i idxs IH]; intros e; cbn [ema_loop]; [reflexivity|].
  destruct (Z.of_nat i <? Z.of_nat period - 1)%Z; [cbn [length]; now rewrite IH|].
  destruct (Z.of_nat i =? Z.of_nat period - 1)%Z; cbn [length]; now rewrite IH.
Qed.

Lemma ema_loop_warm (m a j : nat) (e : JS.num) :
  (j < m)%nat -> (a + j < period - 1)%nat ->
  nth j (ema_loop period k data (seq a m) e) nan = nan.
Proof.
  revert a j e. induction m as [|m IH]; intros a j e Hj Hw; [lia|].
  cbn [seq ema_loop]. destruct (Z.ltb_spec (Z.of_nat a) (Z.of_nat period - 1)); [|lia].
  destruct j as [|j]; [reflexivity|]. cbn [nth]. apply IH; lia.
Qed.

Lemma ema_loop_seed (m a j : nat) (e : JS.num) :
  (j < m)%nat -> (a + j + 1 = period)%nat ->
  nth j (ema_loop period k data (seq a m) e) nan = e.
Proof.
  revert a j e. induction m as [|m IH]; intros a j e Hj Hs; [lia|].
  cbn [seq ema_loop]. destruct j as [|j].
  - destruct (Z.ltb_spec (Z.of_nat a) (Z.of_nat period - 1)); [lia|].
    destruct (Z.eqb_spec (Z.of_nat a) (Z.of_nat period - 1)); [reflexivity|lia].
  - destruct (Z.ltb_spec (Z.of_nat a) (Z.of_nat period - 1)); [|lia].
    cbn [nth]. apply IH; lia.
Qed.

Lemma ema_loop_head_run (m a : nat) (e : JS.num) :
  (period <= a)%nat ->
  nth 0 (ema_loop period k data (seq a (S m)) e) nan = JS.get data a * k + e * (1 - k).
Proof.
  intros H. cbn [seq ema_loop].
  destruct (Z.ltb_spec (Z.of_nat a) (Z.of_nat period - 1)); [lia|].
  destruct (Z.eqb_spec (Z.of_nat a) (Z.of_nat period - 1)); [lia|reflexivity].
Qed.

Lemma ema_loop_recurrence (m a j : nat) (e : JS.num) :
  (S j < m)%nat -> (period <= a + S j)%nat ->
  nth (S j) (ema_loop period k data (seq a m) e) nan
  = JS.get data (a + S j) * k + nth j (ema_loop period k data (seq a m) e) nan * (1 - k).
Proof.
  revert a j e. induction m as [|m IH]; intros a j e Hj Hp; [lia|].
  destruct j as [|j].
  - destruct m as [|m]; [lia|].
    replace (a + 1)%nat with (S a) by lia.
    change (seq a (S (S m))) with (a :: seq (S a) (S m)). cbn [ema_loop].
    destruct (Z.ltb_spec (Z.of_nat a) (Z.of_nat period - 1)); [lia|].
    destruct (Z.of_nat a =? Z.of_nat period - 1)%Z;
      cbn [nth]; rewrite ema_loop_head_run by lia; reflexivity.
  - change (seq a (S m)) with (a :: seq (S a) m). cbn [ema_loop].
    destruct (Z.of_nat a <? Z.of_nat period - 1)%Z;
      [|destruct (Z.of_nat a =? Z.of_nat period - 1)%Z];
      cbn [nth]; rewrite IH by lia;
      replace (S a + S j)%nat with (a + S (S j))%nat by lia; reflexivity.
Qed.

Lemma length_calculateEMA : length (calculateEMA data period) = length data.
Proof. unfold calculateEMA. fold k. now rewrite length_ema_loop, length_seq. Qed.

Lemma ema_warmup (i : nat) :
  (i < length data)%nat -> (i < period - 1)%nat -> JS.get (calculateEMA data period) i = nan.
Proof. intros Hi Hw. unfold JS.get, calculateEMA. fold k. apply ema_loop_warm; lia. Qed.

Lemma ema_at_seed :
  (1 <= period <= length data)%nat ->
  JS.get (calculateEMA data period) (period - 1) = mean (firstn period data).
Proof.
  intros H. unfold JS.get, calculateEMA. fold k. rewrite ema_loop_seed by lia.
  unfold ema_seed, mean. rewrite length_firstn, Nat.min_l by lia.
  change 0%Z with (Z.of_nat 0). rewrite slice_nat by lia.
  cbn [skipn]. now rewrite Nat.sub_0_r.
Qed.

Lemma ema_recurrence (i : nat) :
  (1 <= i)%nat -> (period <= i < length data)%nat ->
  JS.get (calculateEMA data period) i
  = JS.get data i * k + JS.get (calculateEMA data period) (i - 1) * (1 - k).
Proof.
  intros H1 H. unfold JS.get at 1 3, calculateEMA. fold k.
  destruct i as [|j]; [lia|]. replace (S j - 1)%nat with j by lia.
  rewrite ema_loop_recurrence by lia. reflexivity.
Qed.

(** From the seed index on, an average that is NaN stays NaN. *)
Lemma ema_nan_persists (d i0 : nat) :
  (period <= i0 + 1)%nat -> (i0 + d < length data)%nat ->
  JS.get (calculateEMA data period) i0 = nan ->
  JS.get (calculateEMA data period) (i0 + d) = nan.
Proof.
  intros Hp. induction d as [|d IH]; intros Hn H0.
  - now rewrite Nat.add_0_r.
  - rewrite ema_recurrence by lia.
    replace (i0 + S d - 1)%nat with (i0 + d)%nat by lia.
    rewrite IH by (lia || assumption). nan_simpl. reflexivity.
Qed.

End ExponentialAverage.

Section ExponentialAverageProperties.
Import Indicators.

Lemma sum_with_nan (l : list JS.num) : In nan l -> JS.sum l = nan.
Proof.
  intros H. apply in_split in H. destruct H as [l1 [l2 ->]].
  unfold JS.sum. rewrite fold_left_app. cbn [fold_left].
  rewrite FloatFacts.add_nan_r. apply sum_from_nan.
Qed.

(** [calculateEMA] is index-aligned with its input and NaN before the seed
    index; on an input shorter than the period it is NaN throughout. *)
Theorem ema_is_aligned_and_padded (data : list JS.num) (period : nat) :
  length (calculateEMA data period) = length data
  /\ (forall i, (i < length data)%nat -> (i < period - 1)%nat ->
                JS.get (calculateEMA data period) i = nan)
  /\ ((length data < period)%nat ->
      calculateEMA data period = repeat nan (length data)).
Proof.
  split; [apply length_calculateEMA|]. split; [intros i; apply ema_warmup|].
  intros H. apply (nth_ext _ _ nan nan).
  - now rewrite length_calculateEMA, repeat_length.
  - intros i Hi. rewrite length_calculateEMA in Hi. rewrite nth_repeat.
    apply ema_warmup; lia.
Qed.

(** For a period of at least one that the input covers, the entry at
    [period - 1] is the mean of the first [period] values, and every later
    entry is [data[i] * k + ema[i - 1] * (1 - k)] with [k = 2 / (period + 1)]. *)
Theorem ema_seed_and_recurrence (data : list JS.num) (period : nat) :
  (1 <= period <= length data)%nat ->
  JS.get (calculateEMA data period) (period - 1) = mean (firstn period data)
  /\ forall i, (period <= i < length data)%nat ->
       JS.get (calculateEMA data period) i
       = JS.get data i * (2 / (JS.of_nat period + 1))
         + JS.get (calculateEMA data period) (i - 1) * (1 - 2 / (JS.of_nat period + 1)).
Proof.
  intros H. split; [now apply ema_at_seed|].
  intros i Hi. apply ema_recurrence; lia.
Qed.

(** One NaN in the input makes every average NaN from its index on (from
    the seed index on, when the NaN lies in the seeding window). *)
Theorem ema_never_recovers_from_nan (data : list JS.num) (period j : nat) :
  (1 <= period)%nat -> (j < length data)%nat -> JS.get data j = nan ->
  forall i, (j <= i < length data)%nat -> (period - 1 <= i)%nat ->
            JS.get (calculateEMA data period) i = nan.
Proof.
  intros Hp Hj Hnan i Hi Hpi.
  destruct (Nat.lt_ge_cases j period) as [Hlt|Hge].
  - assert (Hseed : JS.get (calculateEMA data period) (period - 1) = nan).
    { rewrite ema_at_seed by lia. unfold mean. rewrite sum_with_nan; [apply FloatFacts.div_nan_l|].
      assert (Hin : In (nth j (firstn period data) nan) (firstn period data))
        by (apply nth_In; rewrite length_firstn; lia).
      rewrite nth_firstn in Hin. destruct (Nat.ltb_spec j period); [|lia].
      unfold JS.get in Hnan. now rewrite Hnan in Hin. }
    replace i with (period - 1 + (i - (period - 1)))%nat by lia.
    apply ema_nan_persists; [lia|lia|exact Hseed].
  - assert (Hat : JS.get (calculateEMA data period) j = nan).
    { rewrite ema_recurrence by lia. rewrite Hnan. nan_simpl. reflexivity. }
    replace i with (j + (i - j))%nat by lia.
    apply ema_nan_persists; [lia|lia|exact Hat].
Qed.

Lemma ema_is_aligned_and_padded_witness :
  JS.get (calculateEMA [1; 2; 3; 4; 5] 3) 1 = nan
  /\ calculateEMA [1; 2] 3 = repeat nan 2.
Proof.
  split.
  - apply (proj1 (proj2 (ema_is_aligned_and_padded [1; 2; 3; 4; 5] 3))); simpl; lia.
  - apply (proj2 (proj2 (ema_is_aligned_and_padded [1; 2] 3))). simpl. lia.
Defined.

Lemma ema_seed_and_recurrence_witness :
  JS.get (calculateEMA [1; 2; 3; 4; 5] 3) (3 - 1) = mean (firstn 3 [1; 2; 3; 4; 5])
  /\ JS.get (calculateEMA [1; 2; 3; 4; 5] 3) 4
     = JS.get [1; 2; 3; 4; 5] 4 * (2 / (JS.of_nat 3 + 1))
       + JS.get (calculateEMA [1; 2; 3; 4; 5] 3) (4 - 1) * (1 - 2 / (JS.of_nat 3 + 1)).
Proof.
  destruct (ema_seed_and_recurrence [1; 2; 3; 4; 5] 3) as [Hs Hr].
  - simpl. lia.
  - split; [exact Hs|]. apply Hr. simpl. lia.
Defined.

Lemma ema_never_recovers_from_nan_witness :
  JS.get (calculateEMA [1; 2; nan; 4; 5; 6] 2) 5 = nan.
Proof.
  apply (ema_never_recovers_from_nan [1; 2; nan; 4; 5; 6] 2 2); simpl; try lia.
  reflexivity.
Defined.

End ExponentialAverageProperties.

(* ================================================================= *)
(** ** Further properties of the indicator engine: RSI, ADX, Parabolic SAR *)

Section OscillatorsMore.
Import Indicators.

Lemma length_rsi_loop (period : nat) (g l : list JS.num) (idxs : list nat) (a b : JS.num) :
  length (rsi_loop period g l idxs a b) = length idxs.
Proof.
  revert a b. induction idxs as [|i idxs IH]; intros a b; cbn [rsi_loop length]; auto.
Qed.

Lemma length_smooth_loop (period : nat) (d : list JS.num) (idxs : list nat) (e : JS.num) :
  length (smooth_loop period d idxs e) = length idxs.
Proof.
  revert e. induction idxs as [|i idxs IH]; intros e; cbn [smooth_loop length]; auto.
Qed.

Lemma length_adx_loop (period : nat) (d : list JS.num) (idxs : list nat) (e : JS.num) :
  length (adx_loop period d idxs e) = length idxs.
Proof.
  revert e. induction idxs as [|i idxs IH]; intros e; cbn [adx_loop length]; auto.
Qed.

Lemma length_smoothed (d : list JS.num) (period : nat) :
  length (calculateSmoothedAverage d period) = S (length d - period).
Proof.
  unfold calculateSmoothedAverage. cbn [length]. now rewrite length_smooth_loop, length_seq.
Qed.

Lemma length_dx (highs lows closes : list JS.num) (period : nat) :
  length (dx highs lows closes period) = S (length closes - 1 - period).
Proof.
  unfold dx, plusDI, smoothedTR, bars_from_1.
  now rewrite !length_map, !length_seq, length_smoothed, length_map, length_seq.
Qed.

Lemma length_calculateRSI (a : list JS.num) (period : nat) :
  length (calculateRSI a period) = Nat.max (length a) (period + 1).
Proof.
  unfold calculateRSI, rsi_averages.
  rewrite length_app, repeat_length, length_map. cbn [length].
  rewrite length_rsi_loop, length_seq. lia.
Qed.

Lemma length_calculateADX (highs lows closes : list JS.num) (period : nat) :
  (1 <= period)%nat ->
  length (calculateADX highs lows closes period) = Nat.max (length closes) (2 * period).
Proof.
  intros Hp. unfold calculateADX. cbv zeta.
  rewrite length_app, repeat_length. cbn [length].
  rewrite length_adx_loop, length_seq, length_dx. lia.
Qed.

Lemma length_sar_scan (highs lows : list JS.num) (iAF mAF : JS.num)
      (idxs : list nat) (st : sar_state) :
  length (sar_scan highs lows iAF mAF idxs st) = length idxs.
Proof.
  revert st. induction idxs as [|i idxs IH]; intros st; cbn [sar_scan length]; auto.
Qed.

Lemma length_calculateParabolicSAR (highs lows closes : list JS.num) (iAF mAF : JS.num) :
  length (calculateParabolicSAR highs lows closes iAF mAF) = Nat.max (length closes) 1.
Proof.
  unfold calculateParabolicSAR, sar_run. cbn [length].
  rewrite length_map, length_sar_scan, length_seq. lia.
Qed.

(** The three scans are never shorter than their warm-up: RSI returns
    [max(n, period + 1)] entries, ADX [max(n, 2 * period)] and Parabolic SAR
    [max(n, 1)], so each is longer than a short input; the leading [period],
    [2 * period - 1] and one entries are NaN. *)
Theorem scans_outgrow_short_input
        (highs lows closes : list JS.num) (period : nat) (iAF mAF : JS.num) :
  (1 <= period)%nat ->
  (length (calculateRSI closes period) = Nat.max (length closes) (period + 1)
   /\ forall i, (i < period)%nat -> JS.get (calculateRSI closes period) i = nan)
  /\ (length (calculateADX highs lows closes period) = Nat.max (length closes) (2 * period)
      /\ forall i, (i < 2 * period - 1)%nat ->
                   JS.get (calculateADX highs lows closes period) i = nan)
  /\ (length (calculateParabolicSAR highs lows closes iAF mAF) = Nat.max (length closes) 1
      /\ JS.get (calculateParabolicSAR highs lows closes iAF mAF) 0 = nan).
Proof.
  intros Hp. split; [|split]; split.
  - apply length_calculateRSI.
  - intros i Hi. unfold JS.get, calculateRSI.
    rewrite app_nth1 by now rewrite repeat_length. apply nth_repeat.
  - now apply length_calculateADX.
  - intros i Hi. unfold JS.get, calculateADX. cbv zeta.
    rewrite app_nth1 by (rewrite repeat_length; lia). apply nth_repeat.
  - apply length_calculateParabolicSAR.
  - reflexivity.
Qed.

Lemma scans_outgrow_short_input_witness :
  length (calculateRSI [1; 2; 3] 14) = 15%nat
  /\ length (calculateADX [1; 2; 3] [1; 2; 3] [1; 2; 3] 14) = 28%nat
  /\ length (calculateParabolicSAR [] [] [] defaultInitialAF defaultMaxAF) = 1%nat.
Proof.
  destruct (scans_outgrow_short_input [1; 2; 3] [1; 2; 3] [1; 2; 3] 14
              defaultInitialAF defaultMaxAF) as [[Hr _] [[Ha _] _]]; [lia|].
  destruct (scans_outgrow_short_input [] [] [] 14 defaultInitialAF defaultMaxAF)
    as [_ [_ [Hs _]]]; [lia|].
  split; [exact Hr|]. split; [exact Ha|exact Hs].
Defined.

Lemma adx_loop_app (period : nat) (d : list JS.num) (l1 l2 : list nat) (e : JS.num) :
  exists e', adx_loop period d (l1 ++ l2) e
             = adx_loop period d l1 e ++ adx_loop period d l2 e'.
Proof.
  revert e. induction l1 as [|i l1 IH]; intros e; cbn [app adx_loop].
  - eauto.
  - destruct (IH (((e * (JS.of_nat period - 1)) + JS.get d i) / JS.of_nat period))
      as [e' He]. exists e'. now rewrite He.
Qed.

Lemma adx_loop_nan_from (period : nat) (d : list JS.num) (a m j : nat) (e : JS.num) :
  (j < m)%nat -> JS.get d (a + j) = nan ->
  forall i, (j <= i < m)%nat -> nth i (adx_loop period d (seq a m) e) nan = nan.
Proof.
  intros Hj Hnan i Hi.
  replace m with (j + S (m - S j))%nat by lia.
  rewrite seq_app. destruct (adx_loop_app period d (seq a j) (seq (a + j) (S (m - S j))) e)
    as [e' ->].
  rewrite app_nth2 by (rewrite length_adx_loop, length_seq; lia).
  rewrite length_adx_loop, length_seq. cbn [seq adx_loop]. rewrite Hnan. nan_simpl.
  rewrite adx_loop_nan. destruct (i - j)%nat; cbn [nth]; [reflexivity|].
  destruct (Nat.lt_ge_cases n (length (seq (S (a + j)) (m - S j)))).
  - now rewrite nth_repeat.
  - rewrite nth_overflow; [reflexivity|now rewrite repeat_length].
Qed.

(** One NaN among the DX values makes the ADX NaN from there on: a DX at
    index [j] reaches the result at index [period + j], or at the first
    entry after the padding when it belongs to the seeding window. *)
Theorem adx_never_recovers_from_nan
        (highs lows closes : list JS.num) (period j : nat) :
  (1 <= period)%nat ->
  (j < length (dx highs lows closes period))%nat ->
  JS.get (dx highs lows closes period) j = nan ->
  forall i, (period + j <= i)%nat ->
            JS.get (calculateADX highs lows closes period) i = nan.
Proof.
  intros Hp Hj Hnan i Hi. unfold calculateADX. cbv zeta.
  set (d := dx highs lows closes period) in *.
  set (adx0 := JS.sum (JS.slice d 0 (Z.of_nat period)) / JS.of_nat period).
  unfold JS.get.
  destruct (Nat.lt_ge_cases i (period * 2 - 1)) as [Hpad|Hpast].
  { rewrite app_nth1 by now rewrite repeat_length. apply nth_repeat. }
  rewrite app_nth2 by (rewrite repeat_length; lia). rewrite repeat_length.
  destruct (Nat.lt_ge_cases j period) as [Hseedw|Hloop].
  - assert (H0 : adx0 = nan).
    { unfold adx0. rewrite sum_with_nan; [apply FloatFacts.div_nan_l|].
      change 0%Z with (Z.of_nat 0).
      unfold JS.slice, JS.rel_index.
      destruct (Z.ltb_spec (Z.of_nat 0) 0); [lia|].
      destruct (Z.ltb_spec (Z.of_nat period) 0); [lia|].
      rewrite !Nat2Z.id. cbn [Nat.min skipn]. rewrite Nat.sub_0_r.
      assert (Hin : In (nth j (firstn (Nat.min period (length d)) d) nan)
                       (firstn (Nat.min period (length d)) d))
        by (apply nth_In; rewrite length_firstn; lia).
      rewrite nth_firstn in Hin.
      destruct (Nat.ltb_spec j (Nat.min period (length d))); [|lia].
      unfold JS.get in Hnan. now rewrite Hnan in Hin. }
    rewrite H0, adx_loop_nan.
    change (nan :: repeat nan (length (seq period (length d - period))))
      with (repeat nan (S (length (seq period (length d - period))))).
    destruct (Nat.lt_ge_cases (i - (period * 2 - 1))
                (S (length (seq period (length d - period))))).
    + now rewrite nth_repeat.
    + rewrite nth_overflow; [reflexivity|now rewrite repeat_length].
  - destruct (i - (period * 2 - 1))%nat as [|i'] eqn:Ei; [lia|]. cbn [nth].
    destruct (Nat.lt_ge_cases i' (length d - period)) as [Hin|Hout].
    + apply (adx_loop_nan_from period d period (length d - period) (j - period)); try lia.
      now replace (period + (j - period))%nat with j by lia.
    + apply nth_overflow. rewrite length_adx_loop, length_seq. lia.
Qed.

Lemma adx_never_recovers_from_nan_witness :
  JS.get (calculateADX flat30 flat30 flat30 14) 29 = nan.
Proof.
  apply (adx_never_recovers_from_nan flat30 flat30 flat30 14 0); try (vm_compute; reflexivity).
  - lia.
  - vm_compute. repeat constructor.
  - lia.
Defined.

Lemma rsi_loop_zeros (g l : list JS.num) (idxs : list nat) :
  (forall i, In i idxs -> JS.get g (i - 1) = 0 /\ JS.get l (i - 1) = 0) ->
  rsi_loop 14 g l idxs 0 0 = repeat (0, 0) (length idxs).
Proof.
  induction idxs as [|i idxs IH]; intros H; [reflexivity|].
  cbn [rsi_loop length repeat]. destruct (H i (or_introl eq_refl)) as [-> ->].
  change (wilder 14 0 0) with 0. f_equal. apply IH. intros j Hj. apply H. now right.
Qed.

(** The RSI of a flat series, computed through the guarded division. *)
Lemma flat_rsi (c : JS.num) (n : nat) :
  PrimFloat.is_finite c = true ->
  calculateRSI (repeat c n) 14 = repeat nan 14 ++ repeat 0 (S (n - 15)).
Proof.
  intros Hc.
  assert (Hch : changes (repeat c n) = repeat 0 (n - 1)).
  { unfold changes. rewrite repeat_length. rewrite (map_const _ 0).
    - now rewrite length_seq.
    - intros i Hi. apply in_seq in Hi. rewrite !get_repeat by lia. now apply sub_diag. }
  assert (Hg : gains (repeat c n) = repeat 0 (n - 1)).
  { unfold gains. rewrite Hch, (map_const _ 0); [now rewrite repeat_length|].
    intros x Hx. apply repeat_spec in Hx. subst x. reflexivity. }
  assert (Hl : losses (repeat c n) = repeat 0 (n - 1)).
  { unfold losses. rewrite Hch, (map_const _ 0); [now rewrite repeat_length|].
    intros x Hx. apply repeat_spec in Hx. subst x. reflexivity. }
  unfold calculateRSI, rsi_averages. cbv zeta. rewrite Hg, Hl.
  rewrite (slice_repeat 0 (n - 1) 14), sum_zeros.
  change (0 / JS.of_nat 14) with 0.
  rewrite rsi_loop_zeros.
  - rewrite length_seq, repeat_length. f_equal. cbn [map fst snd].
    change (rsi_value 0 0) with 0. f_equal.
    rewrite (map_const _ 0); [now rewrite repeat_length|].
    intros p Hp. apply repeat_spec in Hp. subst p. reflexivity.
  - intros i Hi. apply in_seq in Hi. rewrite repeat_length in Hi.
    split; apply get_repeat; lia.
Qed.

(** On a flat series of any finite value, with the default period, every
    RSI value after the padding is 0: there are no gains, and the zero
    average loss is replaced by 0.001. *)
Theorem rsi_of_flat_series_is_zero (c : JS.num) (n : nat) :
  PrimFloat.is_finite c = true ->
  calculateRSI (repeat c n) 14 = repeat nan 14 ++ repeat 0 (S (n - 15)).
Proof. exact (flat_rsi c n). Qed.

Lemma rsi_of_flat_series_is_zero_witness :
  calculateRSI (repeat 100 30) 14 = repeat nan 14 ++ repeat 0 (S (30 - 15)).
Proof. apply rsi_of_flat_series_is_zero. vm_compute. reflexivity. Defined.

End OscillatorsMore.

(* ================================================================= *)
(** ** Further properties of the indicator engine: bands and MACD *)

Section BandsAndMACD.
Import Indicators.

Lemma get_map_seq (f : nat -> JS.num) (n i : nat) :
  (i < n)%nat -> JS.get (map f (seq 0 n)) i = f i.
Proof. intros H. unfold JS.get. now rewrite nth_map_seq. Qed.

Lemma window_rev_map (a : list JS.num) (i period : nat) :
  (period <= i + 1 <= length a)%nat ->
  map (fun j => JS.get a (i - j)) (seq 0 period) = rev (window a i period).
Proof.
  intros H. apply (nth_ext _ _ nan nan).
  - rewrite length_map, length_seq, length_rev, length_window; auto.
  - intros j Hj. rewrite length_map, length_seq in Hj.
    rewrite nth_map_seq by exact Hj.
    rewrite rev_nth by (rewrite length_window; auto).
    rewrite length_window by auto. unfold window.
    rewrite nth_firstn. destruct (Nat.ltb_spec (period - S j) period); [|lia].
    rewrite nth_skipn. unfold JS.get. f_equal. lia.
Qed.

Lemma squared_deviations_all (a : list JS.num) (i : nat) (mid : JS.num)
      (js : list nat) (s : JS.num) :
  (forall j, In j js -> (j <= i)%nat) ->
  squared_deviations a i mid js s
  = fold_left PrimFloat.add (map (fun j => JS.sq (JS.get a (i - j) - mid)) js) s.
Proof.
  revert s. induction js as [|j js IH]; intros s H; cbn [squared_deviations map fold_left];
    [reflexivity|].
  destruct (Z.ltb_spec (Z.of_nat i - Z.of_nat j) 0).
  - specialize (H j (or_introl eq_refl)). lia.
  - apply IH. intros j' Hj'. apply H. now right.
Qed.

(** The deviation added up at a defined index covers the whole trailing
    window: the loop's [break] is never taken there. *)
Lemma band_sd_window (a : list JS.num) (period i : nat) (mid : JS.num) :
  (period <= i + 1 <= length a)%nat ->
  band_sd a period i mid
  = PrimFloat.sqrt (JS.sum (map (fun x => JS.sq (x - mid)) (rev (window a i period)))
                    / JS.of_nat period).
Proof.
  intros H. unfold band_sd. rewrite squared_deviations_all.
  - rewrite <- (window_rev_map a i period H), map_map. reflexivity.
  - intros j Hj. apply in_seq in Hj. lia.
Qed.

(** The three bands are index-aligned with the input, the middle one is the
    simple moving average, the outer ones are NaN during its warm-up, and at
    an index where the average is a number they lie [stdDev] population
    standard deviations of the trailing [period] values above and below it. *)
Theorem bands_are_aligned_around_sma (a : list JS.num) (period : nat) (stdDev : JS.num) :
  let b := calculateBollingerBands a period stdDev in
  (length (upper b) = length a /\ length (middle b) = length a
   /\ length (lower b) = length a)
  /\ middle b = calculateSMA a period
  /\ (forall i, (i < length a)%nat -> (i < period - 1)%nat ->
                JS.get (upper b) i = nan /\ JS.get (lower b) i = nan)
  /\ (forall i, (period - 1 <= i < length a)%nat ->
                PrimFloat.is_nan (JS.get (middle b) i) = false ->
                let mid := JS.get (middle b) i in
                let sd := PrimFloat.sqrt
                            (JS.sum (map (fun x => JS.sq (x - mid))
                                         (rev (window a i period)))
                             / JS.of_nat period) in
                JS.get (upper b) i = mid + stdDev * sd
                /\ JS.get (lower b) i = mid - stdDev * sd).
Proof.
  cbv zeta. unfold calculateBollingerBands. cbn [upper middle lower].
  split; [|split; [reflexivity|split]].
  - rewrite !length_map, !length_seq, indicators_sma_length. auto.
  - intros i Hi Hw. rewrite !get_map_seq by exact Hi.
    rewrite (indicators_sma_warmup a period i Hi Hw). split; reflexivity.
  - intros i Hi Hnan. rewrite !get_map_seq by lia.
    rewrite Hnan, band_sd_window by lia. split; reflexivity.
Qed.

Lemma bands_are_aligned_around_sma_witness :
  JS.get (upper (calculateBollingerBands [1; 2; 3; 4; 5] 3 2)) 1 = nan
  /\ JS.get (lower (calculateBollingerBands [1; 2; 3; 4; 5] 3 2)) 1 = nan.
Proof.
  apply (proj1 (proj2 (proj2 (bands_are_aligned_around_sma [1; 2; 3; 4; 5] 3 2))));
    simpl; lia.
Defined.

Lemma length_macd_line (a : list JS.num) (fast slow : nat) :
  length (macd_line a fast slow) = length a.
Proof. unfold macd_line. now rewrite length_map, length_seq. Qed.

Lemma macd_line_warmup (a : list JS.num) (fast slow i : nat) :
  (i < length a)%nat -> (i < fast - 1 \/ i < slow - 1)%nat ->
  JS.get (macd_line a fast slow) i = nan.
Proof.
  intros Hi Hw. unfold macd_line. rewrite get_map_seq by exact Hi.
  destruct Hw as [Hw|Hw].
  - rewrite (ema_warmup a fast i Hi Hw). reflexivity.
  - rewrite (ema_warmup a slow i Hi Hw). now rewrite orb_true_r.
Qed.

(** The first element that is not NaN has as many elements from it to the
    end as there are elements that are not NaN, or more. *)
Lemma find_index_bound (a : list JS.num) (i : Z) :
  (find_index not_nan a i = (-1)%Z /\ filter not_nan a = [])
  \/ (i <= find_index not_nan a i
      /\ find_index not_nan a i - i + Z.of_nat (length (filter not_nan a))
         <= Z.of_nat (length a))%Z.
Proof.
  revert i. induction a as [|x a IH]; intros i; cbn [find_index filter].
  - left. auto.
  - destruct (not_nan x) eqn:Hx.
    + right. split; [lia|]. cbn [length].
      pose proof (filter_length_le not_nan a). lia.
    + destruct (IH (i + 1)%Z) as [[H1 H2]|[H1 H2]]; [left; auto|right].
      cbn [length]. lia.
Qed.

Lemma length_set_at (a : list JS.num) (idx : Z) (v : JS.num) :
  (0 <= idx < Z.of_nat (length a))%Z -> length (set_at a idx v) = length a.
Proof.
  intros H. unfold set_at. destruct (Z.ltb_spec idx 0); [lia|].
  destruct (Nat.ltb_spec (Z.to_nat idx) (length a)); [|lia].
  rewrite length_app, length_firstn. cbn [length]. rewrite length_skipn. lia.
Qed.

Lemma length_writes (sig : list JS.num) (base : Z) (idxs : list nat) (padded : list JS.num) :
  (forall i, In i idxs -> (0 <= base + Z.of_nat i < Z.of_nat (length padded))%Z) ->
  length (fold_left (fun p i => set_at p (base + Z.of_nat i) (JS.get sig i)) idxs padded)
  = length padded.
Proof.
  revert padded. induction idxs as [|i idxs IH]; intros padded H; cbn [fold_left];
    [reflexivity|].
  assert (Hi : length (set_at padded (base + Z.of_nat i) (JS.get sig i)) = length padded)
    by (apply length_set_at, H; now left).
  rewrite IH; [exact Hi|]. intros j Hj. rewrite Hi. apply H. now right.
Qed.

(** The signal line is written inside the padded array: no write extends it. *)
Lemma length_macd_signal (a : list JS.num) (fast slow sig : nat) :
  length (macd_signal a fast slow sig) = length a.
Proof.
  unfold macd_signal. cbv zeta.
  set (l := macd_line a fast slow).
  rewrite length_writes; [apply repeat_length|].
  intros i Hi. apply in_seq in Hi. rewrite repeat_length, length_calculateEMA in *.
  pose proof (length_macd_line a fast slow) as Hl. fold l in Hl.
  destruct (find_index_bound l 0) as [[_ Hnone]|[H0 Hb]].
  - rewrite Hnone in Hi. cbn [length] in Hi. lia.
  - lia.
Qed.

Lemma macd_line_short (a : list JS.num) (fast slow : nat) :
  (length a < fast \/ length a < slow)%nat -> macd_line a fast slow = repeat nan (length a).
Proof.
  intros H. apply (nth_ext _ _ nan nan).
  - now rewrite length_macd_line, repeat_length.
  - intros i Hi. rewrite length_macd_line in Hi. rewrite nth_repeat.
    apply macd_line_warmup; lia.
Qed.

Lemma filter_not_nan_nans (n : nat) : filter not_nan (repeat nan n) = [].
Proof. induction n; cbn; auto. Qed.

(** The three MACD series are index-aligned with the input; the line and the
    histogram are NaN while either average warms up; and on an input shorter
    than either period all three are NaN throughout. *)
Theorem macd_is_aligned_and_padded (a : list JS.num) (fast slow sig : nat) :
  let m := calculateMACD a fast slow sig in
  (length (line m) = length a /\ length (signal m) = length a
   /\ length (histogram m) = length a)
  /\ (forall i, (i < length a)%nat -> (i < fast - 1 \/ i < slow - 1)%nat ->
                JS.get (line m) i = nan /\ JS.get (histogram m) i = nan)
  /\ ((length a < fast \/ length a < slow)%nat ->
      line m = repeat nan (length a) /\ signal m = repeat nan (length a)
      /\ histogram m = repeat nan (length a)).
Proof.
  cbv zeta. unfold calculateMACD. cbn [line signal histogram].
  split; [|split].
  - rewrite length_macd_line, length_macd_signal, length_map, length_seq. auto.
  - intros i Hi Hw. split; [now apply macd_line_warmup|].
    rewrite get_map_seq by exact Hi.
    now rewrite (macd_line_warmup a fast slow i Hi Hw).
  - intros Hs. pose proof (macd_line_short a fast slow Hs) as Hline.
    split; [exact Hline|]. split.
    + unfold macd_signal. cbv zeta. rewrite Hline, filter_not_nan_nans. reflexivity.
    + apply (nth_ext _ _ nan nan).
      * now rewrite length_map, length_seq, repeat_length.
      * intros i Hi. rewrite length_map, length_seq in Hi.
        rewrite nth_repeat. fold (JS.get (map (fun i0 =>
             if PrimFloat.is_nan (JS.get (macd_line a fast slow) i0)
                || PrimFloat.is_nan (JS.get (macd_signal a fast slow sig) i0)
             then nan
             else JS.get (macd_line a fast slow) i0
                  - JS.get (macd_signal a fast slow sig) i0) (seq 0 (length a))) i).
        rewrite get_map_seq by exact Hi.
        rewrite Hline, (get_repeat nan (length a) i Hi). reflexivity.
Qed.

Lemma macd_is_aligned_and_padded_witness :
  JS.get (line (calculateMACD [1; 2; 3; 4; 5] 2 3 2)) 1 = nan
  /\ signal (calculateMACD [1; 2] 2 3 2) = repeat nan 2.
Proof.
  split.
  - apply (proj1 (proj2 (macd_is_aligned_and_padded [1; 2; 3; 4; 5] 2 3 2))); simpl; lia.
  - apply (proj2 (proj2 (macd_is_aligned_and_padded [1; 2] 2 3 2))). simpl. lia.
Defined.

Lemma all_indicators_lengths (stockData : list StockTimeSeriesData) :
  (28 <= length stockData)%nat ->
  let t := calculateAllIndicators stockData in
  let n := length stockData in
  length (sma t) = n /\ length (ema t) = n
  /\ length (line (macd t)) = n /\ length (signal (macd t)) = n
  /\ length (histogram (macd t)) = n
  /\ length (rsi t) = n
  /\ length (upper (bollingerBands t)) = n /\ length (middle (bollingerBands t)) = n
  /\ length (lower (bollingerBands t)) = n
  /\ length (adx t) = n /\ length (parabolicSAR t) = n.
Proof.
  intros Hn. cbv zeta. unfold calculateAllIndicators, calculateMACD, calculateBollingerBands.
  cbn [sma ema macd rsi bollingerBands adx parabolicSAR line signal histogram
       upper middle lower].
  rewrite length_macd_line, length_macd_signal, !length_map, !length_seq.
  rewrite indicators_sma_length, length_calculateEMA, length_calculateRSI,
    length_calculateADX, length_calculateParabolicSAR by lia.
  rewrite !length_map. repeat (split; [first [reflexivity|lia]|]). lia.
Qed.

(** With at least 28 bars every series [calculateAllIndicators] returns has
    one entry per bar; the dates and volumes are those of the bars. *)
Theorem all_indicators_are_aligned (stockData : list StockTimeSeriesData) :
  (28 <= length stockData)%nat ->
  let t := calculateAllIndicators stockData in
  let n := length stockData in
  length (sma t) = n /\ length (ema t) = n
  /\ length (line (macd t)) = n /\ length (signal (macd t)) = n
  /\ length (histogram (macd t)) = n
  /\ length (rsi t) = n
  /\ length (upper (bollingerBands t)) = n /\ length (middle (bollingerBands t)) = n
  /\ length (lower (bollingerBands t)) = n
  /\ length (adx t) = n /\ length (parabolicSAR t) = n
  /\ volumes t = map volume stockData /\ dates t = map date stockData.
Proof.
  intros Hn. pose proof (all_indicators_lengths stockData Hn) as H. cbv zeta in *.
  decompose [and] H. repeat split; assumption.
Qed.

Lemma all_indicators_are_aligned_witness :
  length (adx (calculateAllIndicators rising30)) = length rising30
  /\ length (signal (macd (calculateAllIndicators rising30))) = length rising30.
Proof.
  destruct (all_indicators_are_aligned rising30) as (_ & _ & _ & Hs & _ & _ & _ & _ & _ & Ha & _).
  - vm_compute. repeat constructor.
  - split; [exact Ha|exact Hs].
Defined.

End BandsAndMACD.

(* ================================================================= *)
(** ** The prediction panel *)

Section PanelProperties.
Import Panel.

(** The panel's own length test makes the engine's throw unreachable: the
    loader reports the insufficient-data message exactly on fewer than 30
    bars, stores a prediction otherwise, and never reports the failure
    message of its [catch]. *)
Theorem panel_never_reports_failed_prediction
        (data : list StockTimeSeriesData) (st : state) :
  let st' := loadTechnicalPrediction data st in
  ((length data < 30)%nat /\ error st' = short_for_prediction
   /\ technicalPrediction st' = technicalPrediction st)
  \/ ((30 <= length data)%nat /\ error st' = error st
      /\ exists p, Prediction.predictStockPrices data = Returns p
                   /\ technicalPrediction st' = Some p).
Proof.
  cbv zeta. unfold loadTechnicalPrediction.
  destruct (Nat.ltb_spec (length data) 30) as [Hlt|Hge].
  - left. auto.
  - right. split; [assumption|].
    rewrite (predict_unfold data Hge). cbn [error technicalPrediction]. eauto.
Qed.

(** Whenever the panel loads indicators, every series it stores has one
    entry per bar. *)
Theorem panel_indicators_are_aligned (data : list StockTimeSeriesData) (st : state) :
  technicalIndicators st = None ->
  forall t, technicalIndicators (loadTechnicalIndicators data st) = Some t ->
    let n := length data in
    length (Indicators.sma t) = n /\ length (Indicators.ema t) = n
    /\ length (Indicators.line (Indicators.macd t)) = n
    /\ length (Indicators.signal (Indicators.macd t)) = n
    /\ length (Indicators.histogram (Indicators.macd t)) = n
    /\ length (Indicators.rsi t) = n
    /\ length (Indicators.upper (Indicators.bollingerBands t)) = n
    /\ length (Indicators.middle (Indicators.bollingerBands t)) = n
    /\ length (Indicators.lower (Indicators.bollingerBands t)) = n
    /\ length (Indicators.adx t) = n /\ length (Indicators.parabolicSAR t) = n.
Proof.
  intros Hnone t. unfold loadTechnicalIndicators. rewrite Hnone.
  destruct (Nat.ltb_spec (length data) 30) as [Hlt|Hge]; cbn [technicalIndicators];
    [discriminate|].
  intros [= <-]. cbv zeta.
  apply (all_indicators_lengths data). lia.
Qed.

Lemma panel_indicators_are_aligned_witness :
  length (Indicators.adx (Indicators.calculateAllIndicators rising30)) = length rising30.
Proof.
  apply (panel_indicators_are_aligned rising30 (mkState None None "")
           eq_refl (Indicators.calculateAllIndicators rising30)).
  vm_compute. reflexivity.
Defined.

End PanelProperties.

(* ================================================================= *)
(** ** Parabolic SAR on rising lows *)

Section RisingLows.
Import Indicators.

Ltac order_cases :=
  repeat match goal with
         | |- context [Z.compare ?a ?b] => destruct (Z.compare_spec a b)
         | H : context [Z.compare ?a ?b] |- _ => destruct (Z.compare_spec a b)
         | |- context [Pos.compare ?a ?b] => destruct (Pos.compare_spec a b)
         | H : context [Pos.compare ?a ?b] |- _ => destruct (Pos.compare_spec a b)
         end;
  subst; cbn [CompOpp] in *; try discriminate; try reflexivity; try lia.

(** [x <= y < z] excludes [z < x]. *)
Lemma SF_le_lt_trans (x y z : spec_float) :
  SFleb x y = true -> SFltb y z = true -> SFltb z x = false.
Proof.
  unfold SFleb, SFltb.
  destruct x as [sx|sx| |sx mx ex], y as [sy|sy| |sy my ey], z as [sz|sz| |sz mz ez];
    cbn [SFcompare]; try discriminate; try reflexivity;
    try destruct sx; try destruct sy; try destruct sz;
    try discriminate; try reflexivity;
    change (@PosDef.Pos.compare_cont) with (@Pos.compare_cont);
    change (Pos.compare_cont Eq) with Pos.compare;
    intros H1 H2; order_cases.
Qed.

Lemma le_lt_trans (x y z : JS.num) :
  PrimFloat.leb x y = true -> PrimFloat.ltb y z = true -> PrimFloat.ltb z x = false.
Proof. rewrite FloatAxioms.leb_spec, !FloatAxioms.ltb_spec. apply SF_le_lt_trans. Qed.

Lemma ltb_leb (x y : JS.num) : PrimFloat.ltb x y = true -> PrimFloat.leb x y = true.
Proof.
  rewrite FloatAxioms.leb_spec, FloatAxioms.ltb_spec. unfold SFleb, SFltb.
  destruct (SFcompare (Prim2SF x) (Prim2SF y)) as [[| |]|]; auto.
Qed.

Lemma ltb_not_nan (x y : JS.num) :
  PrimFloat.ltb x y = true -> Prim2SF x <> S754_nan /\ Prim2SF y <> S754_nan.
Proof.
  intros H. apply ltb_leb in H. eauto using leb_not_nan_l, leb_not_nan_r.
Qed.

Lemma min_nan_l (y : JS.num) : JS.min nan y = nan.
Proof. reflexivity. Qed.

(** A minimum with a bound below [z] is not above [z]. *)
Lemma min_below (s y z : JS.num) :
  PrimFloat.ltb y z = true -> PrimFloat.ltb z (JS.min s y) = false.
Proof.
  intros H. destruct (ltb_not_nan _ _ H) as [Hy _].
  destruct (PrimFloat.is_nan s) eqn:Hs.
  - unfold JS.min. rewrite Hs. cbn [orb]. apply FloatFacts.ltb_nan_r.
  - apply not_nan_spec in Hs. apply (le_lt_trans _ y); [|exact H].
    now apply min_cases.
Qed.

Lemma min_below_l (s y z : JS.num) :
  PrimFloat.ltb z s = false -> Prim2SF y <> S754_nan ->
  PrimFloat.ltb z y = false -> PrimFloat.ltb z (JS.min s y) = false.
Proof.
  intros Hzs Hy Hzy. destruct (PrimFloat.is_nan s) eqn:Hs.
  - unfold JS.min. rewrite Hs. cbn [orb]. apply FloatFacts.ltb_nan_r.
  - apply not_nan_spec in Hs. destruct (min_cases s y Hs Hy) as [[-> | ->] _]; assumption.
Qed.

Variables (highs lows : list JS.num) (initialAF maxAF : JS.num) (n : nat).

Hypothesis lows_rise :
  forall i, (1 <= i < n)%nat ->
            PrimFloat.ltb (JS.get lows (i - 1)) (JS.get lows i) = true.

Lemma rising_no_reversal (st : sar_state) (i : nat) :
  (1 <= i < n)%nat -> isUptrend st = true -> reverses highs lows i st = false.
Proof.
  intros Hi Hup. unfold reverses. rewrite Hup. cbn [andb negb orb].
  rewrite orb_false_r. unfold JS.lt, sar_advance. rewrite Hup.
  pose proof (lows_rise i Hi) as Hrise.
  destruct (Nat.leb_spec 2 i) as [H2|H2].
  - apply min_below_l.
    + now apply min_below.
    + replace (i - 2)%nat with (i - 1 - 1)%nat by lia.
      apply (proj1 (ltb_not_nan _ _ (lows_rise (i - 1)%nat ltac:(lia)))).
    + apply (le_lt_trans _ (JS.get lows (i - 1))); [|exact Hrise].
      apply ltb_leb. replace (i - 2)%nat with (i - 1 - 1)%nat by lia.
      apply lows_rise. lia.
  - now apply min_below.
Qed.

Lemma rising_scan_stays_up (m a : nat) (st : sar_state) :
  (1 <= a)%nat -> (a + m <= n)%nat -> isUptrend st = true ->
  Forall (fun p => isUptrend (snd p) = true)
         (sar_scan highs lows initialAF maxAF (seq a m) st).
Proof.
  revert a st. induction m as [|m IH]; intros a st Ha Hn Hup; cbn [seq sar_scan];
    constructor.
  - cbn [snd]. unfold sar_step. rewrite rising_no_reversal by (lia || assumption).
    destruct (isUptrend st && JS.gt (JS.get highs a) (ep st)); [assumption|].
    destruct (negb (isUptrend st) && JS.lt (JS.get lows a) (ep st)); assumption.
  - apply IH; try lia. unfold sar_step. rewrite rising_no_reversal by (lia || assumption).
    destruct (isUptrend st && JS.gt (JS.get highs a) (ep st)); [assumption|].
    destruct (negb (isUptrend st) && JS.lt (JS.get lows a) (ep st)); assumption.
Qed.

End RisingLows.

Section RisingLowsProperty.
Import Indicators.

(** When the second close is above the first and every low is above the one
    before it, the scan starts in an uptrend and never reverses: the SAR is
    kept at or below the previous lows, which the next low exceeds. *)
Theorem rising_lows_never_reverse
        (highs lows closes : list JS.num) (initialAF maxAF : JS.num) :
  JS.gt (JS.get closes 1) (JS.get closes 0) = true ->
  (forall i, (1 <= i < length closes)%nat ->
             PrimFloat.ltb (JS.get lows (i - 1)) (JS.get lows i) = true) ->
  Forall (fun st => isUptrend st = true)
         (sar_states highs lows closes initialAF maxAF).
Proof.
  intros Hstart Hrise.
  assert (Hlen : (2 <= length closes)%nat).
  { destruct closes as [|x [|y l]]; cbn [length]; try lia; exfalso.
    - vm_compute in Hstart. discriminate.
    - unfold JS.gt, JS.get in Hstart. cbn [nth] in Hstart.
      rewrite FloatFacts.ltb_nan_r in Hstart. discriminate. }
  unfold sar_states, sar_run. constructor.
  - unfold sar_init. cbn [isUptrend]. exact Hstart.
  - apply Forall_map.
    apply (rising_scan_stays_up highs lows initialAF maxAF (length closes) Hrise);
      [lia|lia|].
    unfold sar_init. cbn [isUptrend]. exact Hstart.
Qed.

Lemma rising_lows_never_reverse_witness :
  Forall (fun st => isUptrend st = true)
         (sar_states [10; 11; 12; 13] [9; 10; 11; 12] [9.5; 10.5; 11.5; 12.5]
                     defaultInitialAF defaultMaxAF).
Proof.
  apply rising_lows_never_reverse.
  - vm_compute. reflexivity.
  - intros i Hi. cbn [length] in Hi.
    destruct i as [|[|[|[|i]]]]; try lia; vm_compute; reflexivity.
Defined.

End RisingLowsProperty.

(* ================================================================= *)
(** ** RSI and ADX: exceptions and division by zero *)

Section OscillatorClaims.
Import Indicators.

Lemma map_combine_maps {A B C D} (f : A -> B) (g : A -> C) (h : B * C -> D) (l : list A) :
  map h (combine (map f l) (map g l)) = map (fun a => h (f a, g a)) l.
Proof. induction l as [|a l IH]; cbn [map combine]; [reflexivity|]. now rewrite IH. Qed.

(** The numbers [calculateRSI] pushes after the padding are computed by
    dividing each average gain by the corresponding entry of
    [rsi_denominators]. *)
Lemma calculateRSI_divides_by_denominators (data : list JS.num) (period : nat) :
  calculateRSI data period
  = repeat nan period
      ++ map (fun gd => 100 - (100 / (1 + fst gd / snd gd)))
             (combine (map fst (rsi_averages data period)) (rsi_denominators data period)).
Proof.
  unfold calculateRSI, rsi_denominators. f_equal.
  rewrite (map_combine_maps fst (fun p => JS.or_else (snd p) rsi_epsilon)).
  reflexivity.
Qed.

Lemma run_calculateRSI_returns (data : list JS.num) (period : nat) :
  run_calculateRSI data period = Returns (calculateRSI data period).
Proof. reflexivity. Qed.

Lemma run_calculateADX_returns (highs lows closes : list JS.num) (period : nat) :
  run_calculateADX highs lows closes period = Returns (calculateADX highs lows closes period).
Proof. reflexivity. Qed.

(** C3.  For every input and every period:
    - neither function throws: each [reduce] is given the initial value 0,
      and the call returns the array computed above;
    - [calculateRSI] never divides by zero: the numbers it pushes after the
      padding are [100 - 100 / (1 + avgGain / d)] where [d] is the average
      loss, replaced by 0.001 when it is zero or NaN, and no such [d] is
      zero or NaN.
    [calculateADX] has no such guard.  On a flat series of any finite value,
    with the default period 14, the RSI entries after the padding are all 0,
    whereas every smoothed true range, the denominator of both directional
    indices, is zero, every DX is NaN and so is every entry of the ADX. *)
Theorem rsi_guarded_adx_unguarded
        (data highs lows closes : list JS.num) (period : nat) (c : JS.num) (n : nat) :
  (run_calculateRSI data period = Returns (calculateRSI data period)
   /\ run_calculateADX highs lows closes period
      = Returns (calculateADX highs lows closes period))
  /\ (calculateRSI data period
      = repeat nan period
          ++ map (fun gd => 100 - (100 / (1 + fst gd / snd gd)))
                 (combine (map fst (rsi_averages data period))
                          (rsi_denominators data period))
      /\ rsi_denominators data period
         = map (fun p => if JS.falsy (snd p) then 0.001 else snd p)
               (rsi_averages data period)
      /\ Forall (fun d => JS.falsy d = false) (rsi_denominators data period))
  /\ (PrimFloat.is_finite c = true ->
      let flat := repeat c n in
      calculateRSI flat 14 = repeat nan 14 ++ repeat 0 (S (n - 15))
      /\ smoothedTR flat flat flat 14 <> []
      /\ Forall (fun d => d = 0) (smoothedTR flat flat flat 14)
      /\ Forall (fun v => v = nan) (dx flat flat flat 14)
      /\ Forall (fun v => v = nan) (calculateADX flat flat flat 14)).
Proof.
  split; [split; [apply run_calculateRSI_returns|apply run_calculateADX_returns]|].
  split.
  - split; [apply calculateRSI_divides_by_denominators|].
    split; [reflexivity|apply rsi_denominators_truthy].
  - intros Hc flat. split; [exact (flat_rsi c n Hc)|].
    destruct (flat_adx c n Hc) as (HTR & _ & _ & HDX & HADX).
    fold flat in HTR, HDX, HADX. rewrite HTR, HDX, HADX.
    split; [discriminate|]. split; [|split].
    + now apply Forall_repeat.
    + now apply Forall_repeat.
    + apply Forall_app. split; now apply Forall_repeat.
Qed.

Lemma rsi_guarded_adx_unguarded_witness :
  run_calculateRSI flat30 14 = Returns (calculateRSI flat30 14)
  /\ run_calculateADX flat30 flat30 flat30 14 = Returns (calculateADX flat30 flat30 flat30 14)
  /\ Forall (fun d => JS.falsy d = false) (rsi_denominators flat30 14)
  /\ calculateRSI flat30 14 = repeat nan 14 ++ repeat 0 16
  /\ Forall (fun d => d = 0) (smoothedTR flat30 flat30 flat30 14)
  /\ Forall (fun v => v = nan) (calculateADX flat30 flat30 flat30 14).
Proof.
  destruct (rsi_guarded_adx_unguarded flat30 flat30 flat30 flat30 14 100 30)
    as [[Hrsi Hadx] [[_ [_ Hden]] Hflat]].
  split; [exact Hrsi|]. split; [exact Hadx|]. split; [exact Hden|].
  destruct (Hflat ltac:(vm_compute; reflexivity)) as (HR & _ & HTR & _ & HADX).
  split; [exact HR|]. split; [exact HTR | exact HADX].
Defined.

End OscillatorClaims.
